(** * CineVerse: the token store, the secure URL builder, the stream proxy
      engine and the TTL cache of [main.py]

    The development embeds the relevant functions of [main.py] and settles
    the properties the specification states about them; it then covers
    the helpers and callers around them (client address and session,
    durations, homepage slicing, movie search, stream qualities, seasons,
    cache keys) with properties read off the code.

    Modelling conventions.
    - Python dictionaries ([_movie_cache], [_stream_map], the header
      dictionaries built by [stream_engine]) are [gmap]s.
    - [time.time()] is an input of the functions that read the clock; clock
      readings are rationals (every float is one, and the difference of two
      readings that lie within a factor two of each other is exact).
    - [uuid.uuid4()] reads 16 random bytes; they are an input, as a number.
    - HTTP-level text (header names and values, URLs, tokens) is [string];
      titles and the secure URL are sequences of Unicode code points, since
      the regular expressions of [make_secure_url] are Unicode-aware.
    - Exceptions are instances of [Exception], identified with their
      message ([str(e)]); cancellation of the serving task is not modelled. *)

From Stdlib Require Import ZArith NArith QArith Lqa String Ascii List Lia DecimalString.
From Stdlib Require Import Sorted Permutation.
From stdpp Require Import gmap strings list fin_maps.

#[local] Set Warnings "-clear-no-such-hyp".

(** ** Python values stored in the cache *)

#[warnings="-register-all"]
Inductive pyval : Type :=
| PyNone
| PyBool (b : bool)
| PyInt (z : Z)
| PyStr (s : string)
| PyList (l : list pyval)
| PyDict (items : list (string * pyval)).

(** ** TTL cache ([main.py], lines 124-138) *)

(** [_cache_ttl = 600  # 10 minutes] *)
Definition _cache_ttl : Q := 600.

(** The comparison [a < b] on clock readings. *)
Definition Qltb (a b : Q) : bool := negb (Qle_bool b a).

(** [get_cached(key)], with the reading [now] of [time.time()] and the
    dictionary [_movie_cache] passed explicitly; the result pairs the
    returned value with the dictionary after the call. *)
Definition get_cached (now : Q) (key : string)
    (_movie_cache : gmap string (pyval * Q)) : pyval * gmap string (pyval * Q) :=
  match _movie_cache !! key with
  | Some (value, timestamp) =>
      if Qltb (now - timestamp) _cache_ttl then (value, _movie_cache)
      else (PyNone, delete key _movie_cache)
  | None => (PyNone, _movie_cache)
  end.

(** [set_cached(key, value)]: [_movie_cache[key] = (value, time.time())]. *)
Definition set_cached (now : Q) (key : string) (value : pyval)
    (_movie_cache : gmap string (pyval * Q)) : gmap string (pyval * Q) :=
  <[key := (value, now)]> _movie_cache.



(** ** Text and headers *)

(** The truth value of a [str]: [if s:]. *)
Definition truthy_str (s : string) : bool :=
  match s with "" => false | String _ _ => true end.

(** The truth value of the result of a [.get(...)]: [None] and the empty
    string are false. *)
Definition truthy (x : option string) : bool :=
  match x with Some s => truthy_str s | None => false end.

(** [lower()] on the ASCII letters, as header names are compared. *)
Definition lower_ascii (c : ascii) : ascii :=
  let n := nat_of_ascii c in
  if (65 <=? n)%nat && (n <=? 90)%nat then ascii_of_nat (n + 32) else c.

Fixpoint lower (s : string) : string :=
  match s with
  | "" => ""
  | String c s' => String (lower_ascii c) (lower s')
  end.

(** [p in s] for strings. *)
Fixpoint contains (p s : string) : bool :=
  String.prefix p s ||
  match s with "" => false | String _ s' => contains p s' end.

(** Starlette's [request.headers.get(key)]: the raw header list of the
    ASGI scope is searched for the first header named [key.lower()]. *)
Fixpoint starlette_get (raw : list (string * string)) (key : string) : option string :=
  match raw with
  | [] => None
  | (header_key, header_value) :: raw' =>
      if (header_key =? lower key)%string then Some header_value
      else starlette_get raw' key
  end.

(** httpx's [response.headers]: names compare case-insensitively and the
    values of a repeated header are joined with [", "]. *)
Definition httpx_values (raw : list (string * string)) (key : string) : list string :=
  map snd (List.filter (fun kv => (lower (fst kv) =? lower key)%string) raw).

(** [key in response.headers] *)
Definition httpx_contains (raw : list (string * string)) (key : string) : bool :=
  existsb (fun kv => (lower (fst kv) =? lower key)%string) raw.

(** [response.headers[key]], [None] standing for [KeyError]. *)
Definition httpx_getitem (raw : list (string * string)) (key : string) : option string :=
  match httpx_values raw key with
  | [] => None
  | vs => Some (String.concat ", " vs)
  end.

(** [response.headers.get(key, default)] *)
Definition httpx_get (raw : list (string * string)) (key dflt : string) : string :=
  match httpx_getitem raw key with Some v => v | None => dflt end.

(** [response.headers[key]] on a branch where [key in response.headers]
    has been tested, so that [KeyError] cannot be raised there (lemma
    [httpx_getitem_present]). *)
Definition httpx_item (raw : list (string * string)) (key : string) : string :=
  httpx_get raw key "".

(** ** Requests, responses and the upstream client *)

(** The inbound request, as far as a handler can observe it. *)
Record Request := {
  req_headers : list (string * string);
  query_params : list (string * string);
  client_host : string
}.

(** The request built by [proxy_client.build_request(method, url, headers=...)]. *)
Record UpstreamRequest := {
  method : string;
  url : string;
  headers : gmap string string
}.

(** One pull from [response.aiter_bytes(chunk_size=512 * 1024)]: a chunk
    of the body, or a read error. *)
Inductive read :=
| Chunk (data : string)
| ReadError (message : string).

(** The upstream response, opened in streaming mode: its body is the
    sequence of pulls the iterator would answer. *)
Record Response := {
  status_code : Z;
  resp_headers : list (string * string);
  body : list read
}.

(** The shared [httpx.AsyncClient]: [build_request] may raise, [send]
    raises or returns the response. *)
Record AsyncClient := {
  build_request_raises : string -> string -> gmap string string -> option string;
  send : UpstreamRequest -> string + Response
}.

(** ** The body generator *)

(** What the consumer of the generator and the process observe. *)
Record gen_state := {
  yielded : list string;
  stdout : list string;
  closed : bool
}.

(** A generator body: it either finishes or raises, and updates the state. *)
Definition gen (A : Type) : Type := gen_state -> (string + A) * gen_state.

#[global] Instance gen_ret : MRet gen := fun A a s => (inr a, s).

#[global] Instance gen_bind : MBind gen :=
  fun A B k m s => match m s with
                   | (inr a, s') => k a s'
                   | (inl e, s') => (inl e, s')
                   end.

Definition raise {A} (e : string) : gen A := fun s => (inl e, s).

(** [yield chunk] *)
Definition yield (chunk : string) : gen unit :=
  fun s => (inr tt, {| yielded := yielded s ++ [chunk];
                        stdout := stdout s; closed := closed s |}).

(** [print(line)] *)
Definition print (line : string) : gen unit :=
  fun s => (inr tt, {| yielded := yielded s;
                        stdout := stdout s ++ [line]; closed := closed s |}).

(** [await response.aclose()] *)
Definition aclose : gen unit :=
  fun s => (inr tt, {| yielded := yielded s; stdout := stdout s; closed := true |}).

(** [try: body / except Exception as e: handler(e)] *)
Definition try_except {A} (body : gen A) (handler : string -> gen A) : gen A :=
  fun s => match body s with
           | (inl e, s') => handler e s'
           | r => r
           end.

(** [try: body / finally: cleanup]: the cleanup runs on every exit of the
    body, and the exit of the body is kept unless the cleanup raises. *)
Definition try_finally {A} (body : gen A) (cleanup : gen unit) : gen A :=
  fun s => match body s with
           | (r, s') => match cleanup s' with
                        | (inr _, s'') => (r, s'')
                        | (inl e, s'') => (inl e, s'')
                        end
           end.

(** [async for chunk in ...: loop_body(chunk)] over the pulls of the body. *)
Fixpoint async_for (pulls : list read) (loop_body : string -> gen unit) : gen unit :=
  match pulls with
  | [] => mret tt
  | Chunk chunk :: pulls' => loop_body chunk ;; async_for pulls' loop_body
  | ReadError e :: _ => raise e
  end.

(** The state of a generator that has not run yet. *)
Definition gen_init : gen_state := {| yielded := []; stdout := []; closed := false |}.

(** [stream_video()], the generator nested in [stream_engine]
    ([main.py], lines 1114-1122). *)
Definition stream_video (response : Response) : gen unit :=
  try_finally
    (try_except
       (async_for (body response) (fun chunk => yield chunk))
       (fun stream_err => print ("[STREAM ERROR] " +:+ stream_err)))
    aclose.

(** ** Stream proxy engine ([main.py], lines 1082-1135) *)

Record HTTPException := {
  exc_status_code : Z;
  detail : string
}.

(** [StreamingResponse(content, status_code=..., headers=..., media_type=...)] *)
Record StreamingResponse := {
  content : gen unit;
  sr_status_code : Z;
  sr_headers : gmap string string;
  media_type : string
}.

(** How a handler ends. *)
Inductive outcome :=
| Raise (e : HTTPException)
| Return (r : StreamingResponse).

(** What a handler does besides returning: calls of [proxy_client.send]
    and lines printed. *)
Inductive event :=
| Send (r : UpstreamRequest)
| Printed (line : string).

(** The header dictionary literal of [stream_engine]. *)
Definition impersonation_headers : gmap string string :=
  <["Origin" := "https://h5.aoneroom.com"]>
  (<["Referer" := "https://fmoviesunblocked.net/"]>
  {["User-Agent" := "Mozilla/5.0 (Windows NT 10.0; Win64; x64) AppleWebKit/537.36"]}).

(** The headers handed to [build_request]: the literal, and [Range] when
    [request.headers.get("range")] is truthy. *)
Definition upstream_headers (request : Request) : gmap string string :=
  let headers := impersonation_headers in
  let range_header := starlette_get (req_headers request) "range" in
  match range_header with
  | Some v => if truthy_str v then <["Range" := v]> headers else headers
  | None => headers
  end.

(** The dictionary [response_headers] built from the upstream response. *)
Definition build_response_headers (response : Response) : gmap string string :=
  let response_headers : gmap string string :=
    <["Content-Type" := httpx_get (resp_headers response) "Content-Type" "video/mp4"]>
    {["Accept-Ranges" := "bytes"]} in
  let response_headers :=
    if httpx_contains (resp_headers response) "Content-Length"
    then <["Content-Length" := httpx_item (resp_headers response) "Content-Length"]>
           response_headers
    else response_headers in
  if httpx_contains (resp_headers response) "Content-Range"
  then <["Content-Range" := httpx_item (resp_headers response) "Content-Range"]>
         response_headers
  else response_headers.

(** [stream_engine(url, request)]. The empty-URL test is outside the
    [try]; [build_request] and [send] are inside it, and the [except]
    clause prints the failure and raises the 500 (the traceback goes to
    standard error and is left out). [response_headers["Content-Type"]] is
    always set, so the default of [media_type] is never used. *)
Definition stream_engine (proxy_client : AsyncClient) (url : string) (request : Request)
    : list event * outcome :=
  if negb (truthy_str url) then
    ([], Raise {| exc_status_code := 400; detail := "Missing URL" |})
  else
    let headers := upstream_headers request in
    match build_request_raises proxy_client "GET" url headers with
    | Some e =>
        ([Printed ("[PROXY] Error: " +:+ e)],
         Raise {| exc_status_code := 500; detail := "Proxy error: " +:+ e |})
    | None =>
        let req := {| method := "GET"; url := url; headers := headers |} in
        match send proxy_client req with
        | inl e =>
            ([Send req; Printed ("[PROXY] Error: " +:+ e)],
             Raise {| exc_status_code := 500; detail := "Proxy error: " +:+ e |})
        | inr response =>
            let response_headers := build_response_headers response in
            ([Send req],
             Return {| content := stream_video response;
                       sr_status_code := status_code response;
                       sr_headers := response_headers;
                       media_type := default "" (response_headers !! "Content-Type") |})
        end
    end.

(** ** Token store and routes ([main.py], lines 1080 and 1137-1160) *)

(** [uuid.uuid4()]: the 16 random bytes read as a number, with the variant
    and version bits set. *)
Definition uuid4 (urandom : N) : N :=
  let int := (urandom mod 2 ^ 128)%N in
  let int := N.ldiff int (N.shiftl 0xc000 48) in
  let int := N.lor int (N.shiftl 0x8000 48) in
  let int := N.ldiff int (N.shiftl 0xf000 64) in
  N.lor int (N.shiftl 4 76).

Definition hex_digit (d : N) : ascii :=
  nth (N.to_nat d) (list_ascii_of_string "0123456789abcdef") "0"%char.

(** [UUID.hex]: ['%032x' % self.int]. *)
Definition hex (int : N) : string :=
  string_of_list_ascii
    (map (fun i => hex_digit (N.shiftr int (4 * N.of_nat (31 - i)) mod 16)%N) (seq 0 32)).

(** [token = str(uuid.uuid4().hex); _stream_map[token] = str(d_url)], the
    issuing step of the metadata routes (lines 836-838 and its copies). *)
Definition issue_token (urandom : N) (d_url : string) (_stream_map : gmap string string)
    : string * gmap string string :=
  let token := hex (uuid4 urandom) in
  (token, <[token := d_url]> _stream_map).

(** [/proxy_video?url=...] *)
Definition proxy_video (proxy_client : AsyncClient) (url : string) (request : Request)
    : list event * outcome :=
  stream_engine proxy_client url request.

(** [/v/{token}/{filename}] *)
Definition stream_secure_ott (proxy_client : AsyncClient)
    (_stream_map : gmap string string) (token filename : string) (request : Request)
    : list event * outcome :=
  let real_url := _stream_map !! token in
  if negb (truthy real_url) then
    ([], Raise {| exc_status_code := 404; detail := "Secure link expired" |})
  else stream_engine proxy_client (default "" real_url) request.

(** [/stream/{token}] and [/stream/{token}/{filename}] *)
Definition stream_by_token (proxy_client : AsyncClient)
    (_stream_map : gmap string string) (token : string) (request : Request)
    (filename : option string) : list event * outcome :=
  let real_url := _stream_map !! token in
  if negb (truthy real_url) then
    ([], Raise {| exc_status_code := 404; detail := "Stream link expired" |})
  else stream_engine proxy_client (default "" real_url) request.

(** The three token routes with their path parameters. *)
Inductive route :=
| v_token_filename (token filename : string)
| stream_token (token : string)
| stream_token_filename (token filename : string).

Definition route_token (r : route) : string :=
  match r with
  | v_token_filename token _ => token
  | stream_token token => token
  | stream_token_filename token _ => token
  end.

(** The value of a query parameter: the last occurrence wins. *)
Definition query_get (request : Request) (key : string) : option string :=
  last (map snd (List.filter (fun kv => (fst kv =? key)%string) (query_params request))).

(** The route layer: path parameters are bound from the path; on
    [/stream/{token}] the parameter [filename] is not in the path and is
    read from the query string, with default [None]. *)
Definition dispatch (proxy_client : AsyncClient) (_stream_map : gmap string string)
    (r : route) (request : Request) : list event * outcome :=
  match r with
  | v_token_filename token filename =>
      stream_secure_ott proxy_client _stream_map token filename request
  | stream_token token =>
      stream_by_token proxy_client _stream_map token request (query_get request "filename")
  | stream_token_filename token filename =>
      stream_by_token proxy_client _stream_map token request (Some filename)
  end.

(** The request with another query string. *)
Definition with_query (request : Request) (q : list (string * string)) : Request :=
  {| req_headers := req_headers request; query_params := q;
     client_host := client_host request |}.

(** ** Secure URL builder ([main.py], lines 412-430) *)

(** A Python [str] as its sequence of code points. *)
Definition pystr_of_string (s : string) : list N :=
  map N_of_ascii (list_ascii_of_string s).

(** [str(n)] for an [int]. *)
Definition str_of_int (n : Z) : list N :=
  pystr_of_string (NilZero.string_of_int (Z.to_int n)).

(** [int(x)] for a float: truncation towards zero. *)
Definition int_of_float (x : Q) : Z := Z.quot (Qnum x) (Zpos (Qden x)).

(** [s.replace(c, "")] for a one-character [c]. *)
Definition replace_char (c : N) (s : list N) : list N :=
  List.filter (fun x => negb (x =? c)%N) s.

Section Unicode.

(** The classification of the code points from 128 on by Python's Unicode
    database ([str.isspace], [str.isalnum]); the ASCII part is fixed. *)
Variables unicode_isspace unicode_isalnum : N -> bool.

(** The whitespace of [str.strip()] and of [\s]. *)
Definition isspace (c : N) : bool :=
  if (c <? 128)%N then
    ((9 <=? c)%N && (c <=? 13)%N) || ((28 <=? c)%N && (c <=? 32)%N)
  else unicode_isspace c.

Definition isalnum (c : N) : bool :=
  if (c <? 128)%N then
    ((48 <=? c)%N && (c <=? 57)%N) || ((65 <=? c)%N && (c <=? 90)%N)
    || ((97 <=? c)%N && (c <=? 122)%N)
  else unicode_isalnum c.

(** [\w]: alphanumeric or the underscore. *)
Definition is_word (c : N) : bool := isalnum c || (c =? 95)%N.

Fixpoint lstrip (s : list N) : list N :=
  match s with
  | [] => []
  | c :: s' => if isspace c then lstrip s' else s
  end.

(** [s.strip()] *)
Definition strip (s : list N) : list N := rev (lstrip (rev (lstrip s))).

(** The class [[^\w\s\-\.]] keeps out word characters, whitespace, the
    hyphen and the dot. *)
Definition allowed (c : N) : bool :=
  is_word c || isspace c || (c =? 45)%N || (c =? 46)%N.

(** [re.sub(r'[^\w\s\-\.]', '', s)] *)
Definition re_sub_disallowed (s : list N) : list N := List.filter allowed s.

(** [re.sub(r'\s+', '.', s)]: scanning from the left, a whitespace
    character starts a match, the match takes the whole run ([in_match])
    and is replaced by one dot. *)
Fixpoint re_sub_spaces (s : list N) : list N :=
  match s with
  | [] => []
  | c :: s' => if isspace c then 46%N :: in_match s' else c :: re_sub_spaces s'
  end
with in_match (s : list N) : list N :=
  match s with
  | [] => []
  | c :: s' => if isspace c then in_match s' else c :: re_sub_spaces s'
  end.

(** A text that does not begin, or does not end, with whitespace. *)
Definition starts_nonspace (s : list N) : Prop :=
  match s with [] => True | c :: _ => isspace c = false end.

Fixpoint ends_nonspace (s : list N) : Prop :=
  match s with
  | [] => True
  | c :: s' => match s' with [] => isspace c = false | _ :: _ => ends_nonspace s' end
  end.

(** What the characters of a sanitized title are: never whitespace, and
    each a word character, a hyphen or a dot. *)
Definition path_safe (c : N) : Prop :=
  isspace c = false /\ (is_word c || (c =? 45)%N || (c =? 46)%N) = true.

(** The first lines of [make_secure_url]: the sanitized title. *)
Definition safe_title (title : list N) : list N :=
  re_sub_spaces (re_sub_disallowed (strip title)).

(** [q_str]: [str(quality).replace(" ", "").replace(".", "")], and
    ["HD"] when nothing is left. *)
Definition q_str (quality : list N) : list N :=
  let q := replace_char 46 (replace_char 32 quality) in
  match q with [] => pystr_of_string "HD" | _ => q end.

(** [make_secure_url(token, title, quality)], with the clock reading and
    the random bytes of [uuid.uuid4()] as inputs. *)
Definition make_secure_url (now : Q) (urandom : N) (token title quality : list N)
    : list N :=
  let safe_title := safe_title title in
  let exp := (int_of_float now + 21600)%Z in
  let sig := take 8 (pystr_of_string (hex (uuid4 urandom))) in
  let q_str := q_str quality in
  pystr_of_string "/v/" ++ token ++ pystr_of_string "/" ++ safe_title
    ++ pystr_of_string "." ++ q_str ++ pystr_of_string ".mp4?token=exp="
    ++ str_of_int exp ++ pystr_of_string "&sig=" ++ sig.

(** The label segment as the specification words it: strip the
    characters outside word characters, whitespace, hyphen and dot, then
    collapse each whitespace run to a single dot. *)
Definition sanitized_label_spec (label : list N) : list N :=
  re_sub_spaces (re_sub_disallowed label).

(** The URL as the specification words it. *)
Definition secure_url_spec (now : Q) (urandom : N) (token label quality : list N)
    : list N :=
  pystr_of_string "/v/" ++ token ++ pystr_of_string "/" ++ sanitized_label_spec label
    ++ pystr_of_string "." ++ q_str quality ++ pystr_of_string ".mp4?token=exp="
    ++ str_of_int (int_of_float now + 6 * 3600)
    ++ pystr_of_string "&sig=" ++ take 8 (pystr_of_string (hex (uuid4 urandom))).

End Unicode.

(** Hexadecimal digits, as code points. *)
Definition is_hex (c : N) : bool :=
  ((48 <=? c)%N && (c <=? 57)%N) || ((97 <=? c)%N && (c <=? 102)%N).

(** A database that classifies no code point from 128 on; text within
    ASCII never consults it. *)
Definition ascii_only (c : N) : bool := false.

(** ** The claims that the code does not meet, as they are worded *)

(** C4 as worded: the upstream request carries a [Range] header exactly
    when the inbound request has one, with its value. *)
Definition range_forwarded_iff_present (c : AsyncClient) (u : string)
    (request : Request) : Prop :=
  forall r, In (Send r) (fst (stream_engine c u request)) ->
  forall v, starlette_get (req_headers request) "range" = Some v <->
            headers r !! "Range" = Some v.

(** C6 as worded: the URL is built from the label sanitized as the
    specification says. *)
Definition builder_as_worded (unicode_isspace unicode_isalnum : N -> bool) (now : Q)
    (urandom : N) (token label quality : list N) : Prop :=
  make_secure_url unicode_isspace unicode_isalnum now urandom token label quality
  = secure_url_spec unicode_isspace unicode_isalnum now urandom token label quality.

(** ** Histories of cache operations *)

(** A call of [get_cached] or [set_cached] with its clock reading. *)
Inductive cache_op :=
| CacheGet (now : Q) (key : string)
| CacheSet (now : Q) (key : string) (value : pyval).

Definition cache_op_key (op : cache_op) : string :=
  match op with CacheGet _ key => key | CacheSet _ key _ => key end.

(** The dictionary after one call, and after a run of calls. *)
Definition run_cache_op (_movie_cache : gmap string (pyval * Q)) (op : cache_op)
    : gmap string (pyval * Q) :=
  match op with
  | CacheGet now key => snd (get_cached now key _movie_cache)
  | CacheSet now key value => set_cached now key value _movie_cache
  end.

Definition run_cache_ops (ops : list cache_op) (_movie_cache : gmap string (pyval * Q))
    : gmap string (pyval * Q) :=
  fold_left run_cache_op ops _movie_cache.

(** The value and clock reading of the latest [set_cached] of [key] in a
    run of calls. *)
Fixpoint last_set (key : string) (ops : list cache_op) : option (pyval * Q) :=
  match ops with
  | [] => None
  | op :: ops' =>
      match last_set key ops' with
      | Some e => Some e
      | None =>
          match op with
          | CacheSet now k value => if (k =? key)%string then Some (value, now) else None
          | CacheGet _ _ => None
          end
      end
  end.

(** ** Python built-ins on values *)

(** The truth value of a value: [if v:]. *)
Definition py_truthy (v : pyval) : bool :=
  match v with
  | PyNone => false
  | PyBool b => b
  | PyInt z => negb (z =? 0)%Z
  | PyStr s => truthy_str s
  | PyList l => match l with [] => false | _ :: _ => true end
  | PyDict items => match items with [] => false | _ :: _ => true end
  end.

(** [str(n)] for an [int], as a [string]. *)
Definition decimal (n : Z) : string := NilZero.string_of_int (Z.to_int n).

Section Builtins.

(** [int(s)] for a [str], [None] standing for [ValueError]. *)
Variable int_of_str : string -> option Z.

(** [int(v)], [None] standing for [TypeError] or [ValueError]. *)
Definition py_int (v : pyval) : option Z :=
  match v with
  | PyInt z => Some z
  | PyBool b => Some (if b then 1 else 0)%Z
  | PyStr s => int_of_str s
  | PyNone | PyList _ | PyDict _ => None
  end.

(** [format_duration(seconds)] ([main.py], lines 400-410); the bare
    [except] turns a failing [int(seconds)] into ["N/A"]. *)
Definition format_duration (seconds : pyval) : string :=
  if negb (py_truthy seconds) then "N/A"
  else
    match py_int seconds with
    | Some seconds =>
        let h := (seconds / 3600)%Z in
        let m := ((seconds mod 3600) / 60)%Z in
        if (0 <? h)%Z then decimal h +:+ "h " +:+ decimal m +:+ "m"
        else decimal m +:+ "m"
    | None => "N/A"
    end.

End Builtins.

(** ** Homepage slicing ([main.py], lines 369-381) *)

(** [response_sections] for a [mode]: ['init'] is [sections[:3]], ['more']
    is [sections[3:]] when there are more than three sections and [[]]
    otherwise, any other mode is the whole list. *)
Definition slice_sections {A : Type} (mode : string) (sections : list A) : list A :=
  if (mode =? "init")%string then take 3 sections
  else if (mode =? "more")%string then
    (if (3 <? length sections)%nat then drop 3 sections else [])
  else sections.

(** ** Client address and upstream session ([main.py], lines 142-174 and 258-263) *)

(** [str.isspace] on the characters of a header value (code points below
    256). *)
Definition latin1_isspace (c : ascii) : bool :=
  let n := N_of_ascii c in
  ((9 <=? n)%N && (n <=? 13)%N) || ((28 <=? n)%N && (n <=? 32)%N)
  || (n =? 133)%N || (n =? 160)%N.

Fixpoint str_lstrip (s : list ascii) : list ascii :=
  match s with
  | [] => []
  | c :: s' => if latin1_isspace c then str_lstrip s' else s
  end.

(** [s.strip()] *)
Definition str_strip (s : string) : string :=
  string_of_list_ascii (rev (str_lstrip (rev (str_lstrip (list_ascii_of_string s))))).

(** [s.split(",")[0]]: the text before the first comma. *)
Fixpoint before_comma (s : string) : string :=
  match s with
  | "" => ""
  | String c s' => if (c =? ",")%char then "" else String c (before_comma s')
  end.

(** [get_client_ip(request)] *)
Definition get_client_ip (request : Request) : string :=
  let forwarded := starlette_get (req_headers request) "x-forwarded-for" in
  match forwarded with
  | Some forwarded =>
      if truthy_str forwarded then str_strip (before_comma forwarded)
      else client_host request
  | None => client_host request
  end.

(** [Session(proxy=..., headers=...)] of the upstream library. *)
Record Session := {
  proxy : option string;
  session_headers : gmap string string
}.

(** The header dictionary literal of [get_session]. *)
Definition session_base_headers : gmap string string :=
  <["X-Locale" := "bn_BD"]>
  (<["X-Time-Zone" := "Asia/Dhaka"]>
  (<["X-Country-Code" := "BD"]>
  (<["X-Client-Country" := "BD"]>
  (<["Accept-Language" := "bn-BD,bn;q=0.9,en-US;q=0.8,en;q=0.7"]>
  (<["CF-IPCountry" := "BD"]>
  (<["Referer" := "http://h5.aoneroom.com/"]>
  (<["Origin" := "http://h5.aoneroom.com"]>
  {["User-Agent" := "Mozilla/5.0 (Windows NT 10.0; Win64; x64) AppleWebKit/537.36 (KHTML, like Gecko) Chrome/120.0.0.0 Safari/537.36"]}))))))).

(** [not client_ip or client_ip in ["127.0.0.1", "localhost", "::1"]] *)
Definition is_localhost (client_ip : option string) : bool :=
  negb (truthy client_ip) ||
  match client_ip with
  | Some ip => (ip =? "127.0.0.1")%string || (ip =? "localhost")%string
               || (ip =? "::1")%string
  | None => false
  end.

(** [get_session(client_ip)], with the value of the environment variable
    [BD_PROXY_URL] as an input; the result pairs the printed lines with
    the session. *)
Definition get_session (BD_PROXY_URL : option string) (client_ip : option string)
    : list string * Session :=
  let headers := session_base_headers in
  let headers :=
    if negb (is_localhost client_ip) then
      <["X-Real-IP" := default "" client_ip]>
      (<["X-Forwarded-For" := default "" client_ip]> headers)
    else headers in
  let proxy_url := BD_PROXY_URL in
  match proxy_url with
  | Some p =>
      if truthy_str p then
        (["[SESSION] Using Real Proxy: " +:+ p],
         {| proxy := Some p; session_headers := headers |})
      else ([], {| proxy := None; session_headers := headers |})
  | None => ([], {| proxy := None; session_headers := headers |})
  end.

(** A text that does not begin with whitespace. *)
Definition starts_clean (s : list ascii) : Prop :=
  match s with [] => True | c :: _ => latin1_isspace c = false end.

(** ** Runs of token issuing, and the upstream calls of a handler *)


(** The value of a hexadecimal digit. *)
Definition hex_value (c : ascii) : N :=
  let n := N_of_ascii c in
  if (n <=? 57)%N then (n - 48)%N else (n - 87)%N.

(** The issuing step repeated, once for each pair of random bytes and
    URL; the tokens are returned in the order of issue. *)
Fixpoint issue_all (reqs : list (N * string)) (_stream_map : gmap string string)
    : list string * gmap string string :=
  match reqs with
  | [] => ([], _stream_map)
  | (urandom, d_url) :: reqs' =>
      let (token, m1) := issue_token urandom d_url _stream_map in
      let (tokens, m2) := issue_all reqs' m1 in
      (token :: tokens, m2)
  end.

(** Two raw header lists that differ in the letter case of names only. *)
Definition same_up_to_case (raw1 raw2 : list (string * string)) : Prop :=
  Forall2 (fun a b => lower (fst a) = lower (fst b) /\ snd a = snd b) raw1 raw2.

(** ** Route matching of a request target *)

(** The path of a request target: the text before the first [?]. *)
Fixpoint url_path (target : list N) : list N :=
  match target with
  | [] => []
  | c :: target' => if (c =? 63)%N then [] else c :: url_path target'
  end.

(** [path.split("/")] *)
Fixpoint split_slash (path : list N) : list (list N) :=
  match path with
  | [] => [[]]
  | c :: path' =>
      match split_slash path' with
      | seg :: segs => if (c =? 47)%N then [] :: seg :: segs else (c :: seg) :: segs
      | [] => [[]]
      end
  end.

(** A [str] of code points below 256, as a [string]. *)
Definition string_of_pystr (s : list N) : string :=
  string_of_list_ascii (map ascii_of_N s).

Definition nonempty (s : list N) : bool :=
  match s with [] => false | _ :: _ => true end.

(** The route a path selects among [/v/{token}/{filename}],
    [/stream/{token}] and [/stream/{token}/{filename}]; a path parameter
    matches one or more characters other than [/]. *)
Definition match_route (path : list N) : option route :=
  match split_slash path with
  | [[]; prefix; token; filename] =>
      if nonempty token && nonempty filename then
        if bool_decide (prefix = pystr_of_string "v") then
          Some (v_token_filename (string_of_pystr token) (string_of_pystr filename))
        else if bool_decide (prefix = pystr_of_string "stream") then
          Some (stream_token_filename (string_of_pystr token) (string_of_pystr filename))
        else None
      else None
  | [[]; prefix; token] =>
      if nonempty token && bool_decide (prefix = pystr_of_string "stream") then
        Some (stream_token (string_of_pystr token))
      else None
  | _ => None
  end.

(** A character that can stand in a path segment as it is: not [/], [?]
    or [%]. *)
Definition segment_char (c : N) : Prop := c <> 47%N /\ c <> 63%N /\ c <> 37%N.

(** ** Picking the movie of a search ([main.py], lines 199-233) *)

(** The attribute [subjectType] of a search result: an enumeration member
    with its [value], or a plain value. *)
Inductive subject_type :=
| SubjectEnum (value : pyval)
| SubjectPlain (v : pyval).

(** [v == n] for an [int] literal [n]. *)
Definition py_eq_int (v : pyval) (n : Z) : bool :=
  match v with
  | PyInt z => (z =? n)%Z
  | PyBool b => ((if b then 1 else 0) =? n)%Z
  | _ => false
  end.

Section Search.

(** The results of the upstream search, with [getattr(item, 'subjectType',
    None)] as a function. *)
Variable item : Type.
Variable subjectType : item -> option subject_type.

(** The test of the loop of [search_movie_by_title]. *)
Definition is_movie (it : item) : bool :=
  match subjectType it with
  | Some (SubjectEnum value) => py_eq_int value 1
  | Some (SubjectPlain v) => py_eq_int v 1
  | None => false
  end.

(** [is_tv_series(item)] *)
Definition is_tv_series (it : item) : bool :=
  match subjectType it with
  | Some (SubjectEnum value) => py_eq_int value 2
  | Some (SubjectPlain v) => py_eq_int v 2
  | None => false
  end.

(** [search_movie_by_title], from the list [results.items] on: the first
    movie, else the first result, else [None]. *)
Definition search_movie_by_title (results_items : list item) : option item :=
  match results_items with
  | [] => None
  | first :: _ =>
      match find is_movie results_items with
      | Some it => Some it
      | None => Some first
      end
  end.

(** [search_content_by_title], from the list [results.items] on. *)
Definition search_content_by_title (results_items : list item) : option item :=
  head results_items.

End Search.

(** ** Qualities of a stream ([main.py], lines 827-888) *)

(** A download of the metadata: [resolution], [size] and [url], each
    [None] when the attribute is missing. *)
Record download := {
  resolution : option Z;
  size : option Z;
  d_url : option string
}.

(** An entry of [available_qualities]. *)
Record quality_item := {
  label : string;
  q_url : list N;
  q_size : option Z;
  q_resolution : option Z
}.

(** [q_label = f"{res}p" if res else "720p"] *)
Definition q_label (res : option Z) : string :=
  match res with
  | Some r => if (r =? 0)%Z then "720p" else decimal r +:+ "p"
  | None => "720p"
  end.

(** The loop over [download_metadata.downloads]. Each download comes with
    the random bytes of its token and the clock reading and random bytes
    that [make_secure_url] would draw; a download without URL draws
    nothing and is skipped. *)
Fixpoint tokenize_downloads (unicode_isspace unicode_isalnum : N -> bool)
    (title : list N) (downloads : list (download * (N * Q * N)))
    (_stream_map : gmap string string) : list quality_item * gmap string string :=
  match downloads with
  | [] => ([], _stream_map)
  | (d, (urandom, now, urandom')) :: downloads' =>
      if truthy (d_url d) then
        let (token, m1) := issue_token urandom (default "" (d_url d)) _stream_map in
        let q_label := q_label (resolution d) in
        let secure_url :=
          make_secure_url unicode_isspace unicode_isalnum now urandom'
            (pystr_of_string token) title (pystr_of_string q_label) in
        let (available_qualities, m2) :=
          tokenize_downloads unicode_isspace unicode_isalnum title downloads' m1 in
        ({| label := q_label; q_url := secure_url; q_size := size d;
            q_resolution := resolution d |} :: available_qualities, m2)
      else tokenize_downloads unicode_isspace unicode_isalnum title downloads' _stream_map
  end.

(** [get_res_val(item)]: [int(str(item['resolution']).replace('p', ''))],
    and 0 when that raises, which it does exactly for [None]. *)
Definition get_res_val (q : quality_item) : Z := default 0%Z (q_resolution q).

(** [available_qualities.sort(key=get_res_val, reverse=True)]: the stable
    sort by decreasing key, as an insertion sort that puts an item in
    front of the later items of the same key. *)
Fixpoint insert_desc (x : quality_item) (l : list quality_item) : list quality_item :=
  match l with
  | [] => [x]
  | y :: l' => if (get_res_val x <? get_res_val y)%Z then y :: insert_desc x l'
               else x :: y :: l'
  end.

Definition sort_qualities (l : list quality_item) : list quality_item :=
  foldr insert_desc [] l.

(** [str(q_item['resolution']) in quality or q_item['label'] == quality] *)
Definition quality_matches (quality : string) (q_item : quality_item) : bool :=
  contains (match q_resolution q_item with Some r => decimal r | None => "None" end)
           quality
  || (label q_item =? quality)%string.

(** The choice of [selected] in a non-empty sorted list: the first match,
    else the first item. *)
Definition select_quality (quality : string) (available_qualities : list quality_item)
    : option quality_item :=
  match find (quality_matches quality) available_qualities with
  | Some q_item => Some q_item
  | None => head available_qualities
  end.

(** The part of [get_stream_url] after the metadata is fetched: the
    qualities, the token map, and the stream URL or the error. When no
    download has a URL the media file is resolved by the upstream library
    ([resolve], an exception message or the URL) and tokenized with its
    own random bytes and clock reading. *)
Definition stream_qualities (unicode_isspace unicode_isalnum : N -> bool)
    (title : list N) (quality : string) (downloads : list (download * (N * Q * N)))
    (resolve : string + string) (fallback : N * Q * N)
    (_stream_map : gmap string string)
    : (string + list N) * list quality_item * gmap string string :=
  let (available_qualities, m1) :=
    tokenize_downloads unicode_isspace unicode_isalnum title downloads _stream_map in
  let available_qualities := sort_qualities available_qualities in
  match select_quality quality available_qualities with
  | Some selected => (inr (q_url selected), available_qualities, m1)
  | None =>
      match resolve with
      | inr real_url =>
          let '(urandom, now, urandom') := fallback in
          let (token, m2) := issue_token urandom real_url m1 in
          (inr (make_secure_url unicode_isspace unicode_isalnum now urandom'
                  (pystr_of_string token) title (pystr_of_string "Auto")),
           available_qualities, m2)
      | inl e => (inl ("No stream found: " +:+ e), available_qualities, m1)
      end
  end.

(** A download that the loop tokenizes, and the issuing steps the loop
    makes for a list of downloads. *)
Definition has_url (x : download * (N * Q * N)) : bool := truthy (d_url (fst x)).

Definition issue_reqs (downloads : list (download * (N * Q * N))) : list (N * string) :=
  map (fun x => (fst (fst (snd x)), default "" (d_url (fst x))))
      (List.filter has_url downloads).

(** A list of qualities in which no item comes before one of a higher
    resolution. *)
Definition best_first (l : list quality_item) : Prop :=
  StronglySorted (fun a b => (get_res_val b <= get_res_val a)%Z) l.

(** ** Seasons of a series ([main.py], lines 702-770) *)







Section Seasons.

(** [str.isspace] on the code points from 128 on, [str.isdigit], and
    [int] on a [str] ([None] standing for [ValueError]). *)
Variable unicode_isspace : N -> bool.
Variable isdigit : list N -> bool.
Variable int_of_pystr : list N -> option Z.
Variable int_of_str : string -> option Z.





End Seasons.


(** ** Cache keys ([main.py], lines 279, 442 and 619) *)

(** [str(b)] for a [bool]. *)
Definition str_of_bool (b : bool) : string := if b then "True" else "False".

(** [cache_key = "home_content_full"] *)
Definition home_cache_key : string := "home_content_full".

(** [cache_key = f"details:{title}:{include_stream}"] *)
Definition details_cache_key (title : string) (include_stream : bool) : string :=
  "details:" +:+ title +:+ ":" +:+ str_of_bool include_stream.

(** [cache_key = f"tv_details_v2:{title}"] *)
Definition tv_details_cache_key (title : string) : string := "tv_details_v2:" +:+ title.

(** * Properties *)

(** ** TTL cache *)

Lemma Qltb_lt (a b : Q) : Qltb a b = true <-> (a < b)%Q.
Proof.
  unfold Qltb. rewrite negb_true_iff. split.
  - intros H. apply Qnot_le_lt. intros Hle.
    apply Qle_bool_iff in Hle. congruence.
  - intros H. destruct (Qle_bool b a) eqn:E; [|reflexivity].
    apply Qle_bool_iff in E. exfalso. exact (Qlt_not_le _ _ H E).
Qed.




Lemma get_cached_other now key key' (c : gmap string (pyval * Q)) :
  key' <> key -> snd (get_cached now key' c) !! key = c !! key.
Proof.
  intros Hne. unfold get_cached.
  destruct (c !! key') as [[v ts]|]; [|reflexivity].
  destruct (Qltb _ _); simpl; [reflexivity|].
  apply lookup_delete_ne. exact Hne.
Qed.






(** ** Token store *)

Lemma list_ascii_hex (int : N) :
  list_ascii_of_string (hex int) =
  map (fun i => hex_digit (N.shiftr int (4 * N.of_nat (31 - i)) mod 16)%N) (seq 0 32).
Proof. unfold hex. apply list_ascii_of_string_of_list_ascii. Qed.

Lemma length_hex (int : N) : String.length (hex int) = 32.
Proof.
  rewrite <- (string_of_list_ascii_of_string (hex int)), list_ascii_hex.
  generalize (fun i => hex_digit (N.shiftr int (4 * N.of_nat (31 - i)) mod 16)%N).
  intros f. generalize (seq 0 32) (eq_refl : length (seq 0 32) = 32).
  intros l <-. induction l as [|x l IH]; simpl; [reflexivity|].
  f_equal. exact IH.
Qed.

Lemma hex_digit_is_hex (d : N) : (d < 16)%N -> is_hex (N_of_ascii (hex_digit d)) = true.
Proof.
  intros Hd.
  assert (Hcases : In d (map N.of_nat (seq 0 16))).
  { apply in_map_iff. exists (N.to_nat d). split; [lia|]. apply in_seq. lia. }
  simpl in Hcases.
  repeat (destruct Hcases as [<-|Hcases]; [reflexivity|]).
  destruct Hcases.
Qed.

Lemma hex_digits (int : N) :
  Forall (fun c => is_hex c = true) (pystr_of_string (hex int)).
Proof.
  unfold pystr_of_string. rewrite list_ascii_hex.
  apply Forall_map, Forall_map, Forall_forall. intros i _.
  apply hex_digit_is_hex. apply N.mod_lt. discriminate.
Qed.

Lemma below_pow2_testbit (y k : N) :
  (y < 2 ^ k)%N <-> (forall n, (k <= n)%N -> N.testbit y n = false).
Proof.
  destruct (N.eq_dec y 0%N) as [->|Hy0].
  - split; [intros _ n _; apply N.bits_0|].
    intros _. apply N.neq_0_lt_0, N.pow_nonzero. discriminate.
  - assert (Hpos : (0 < y)%N) by lia.
    rewrite (N.log2_lt_pow2 y k Hpos). split.
    + intros Hl n Hn. apply N.bits_above_log2. lia.
    + intros Hbits. destruct (N.lt_ge_cases (N.log2 y) k) as [Hl|Hl]; [exact Hl|].
      pose proof (N.bit_log2 y Hy0) as Hb.
      rewrite (Hbits _ Hl) in Hb. discriminate.
Qed.

Lemma uuid4_128_bits (urandom : N) : (uuid4 urandom < 2 ^ 128)%N.
Proof.
  unfold uuid4. apply below_pow2_testbit. intros n Hn.
  assert (H0 : N.testbit (urandom mod 2 ^ 128) n = false).
  { apply (proj1 (below_pow2_testbit _ 128)); [|exact Hn].
    apply N.mod_lt. discriminate. }
  assert (H1 : N.testbit (N.shiftl 32768 48) n = false).
  { apply (proj1 (below_pow2_testbit _ 128)); [reflexivity|exact Hn]. }
  assert (H2 : N.testbit (N.shiftl 4 76) n = false).
  { apply (proj1 (below_pow2_testbit _ 128)); [reflexivity|exact Hn]. }
  rewrite N.lor_spec, N.ldiff_spec, N.lor_spec, N.ldiff_spec, H0, H1, H2.
  reflexivity.
Qed.

Lemma issued_token_streams c urandom u m filename filename' request :
  truthy_str u = true ->
  stream_secure_ott c (snd (issue_token urandom u m)) (fst (issue_token urandom u m))
    filename request = stream_engine c u request /\
  stream_by_token c (snd (issue_token urandom u m)) (fst (issue_token urandom u m))
    request filename' = stream_engine c u request.
Proof.
  intros Hu. unfold stream_secure_ott, stream_by_token, issue_token; simpl.
  rewrite lookup_insert_eq. simpl. rewrite Hu. simpl. split; reflexivity.
Qed.

(** C1. Issuing a token for [u] stores [u] under the fresh identifier, so
    the lookup of that identifier right afterwards gives exactly [u]; the
    identifier is the 32 hexadecimal digits of a 128-bit number. The
    handlers then stream from [u] itself, provided [u] is not the empty
    string, which their truth test reads as a miss. *)
Theorem token_round_trip (urandom : N) (u : string) (m : gmap string string) :
  let t := fst (issue_token urandom u m) in
  let m' := snd (issue_token urandom u m) in
  m' !! t = Some u /\
  t = hex (uuid4 urandom) /\
  (uuid4 urandom < 2 ^ 128)%N /\
  String.length t = 32 /\
  Forall (fun c => is_hex c = true) (pystr_of_string t) /\
  (truthy_str u = true ->
   forall c filename filename' request,
     stream_secure_ott c m' t filename request = stream_engine c u request /\
     stream_by_token c m' t request filename' = stream_engine c u request).
Proof.
  intros t m'. split; [|split; [|split; [|split; [|split]]]].
  - apply lookup_insert_eq.
  - reflexivity.
  - apply uuid4_128_bits.
  - apply length_hex.
  - apply hex_digits.
  - intros Hu c filename filename' request. apply issued_token_streams. exact Hu.
Qed.

Lemma token_round_trip_witness :
  snd (issue_token 7 "https://cdn.example/a.mp4" ∅)
    !! fst (issue_token 7 "https://cdn.example/a.mp4" ∅)
  = Some "https://cdn.example/a.mp4" /\
  fst (issue_token 7 "https://cdn.example/a.mp4" ∅) = "00000000000040008000000000000007".
Proof.
  destruct (token_round_trip 7 "https://cdn.example/a.mp4" ∅) as (H1 & H2 & _).
  split; [exact H1|]. rewrite H2. vm_compute. reflexivity.
Defined.

(** ** Routes *)

(** C2. A token that is not a key of the token map ends each of the three
    routes with an HTTP 404 whose detail is "Secure link expired" or
    "Stream link expired"; no upstream request is made and no 500 is
    produced. *)
Theorem unknown_token_404 (c : AsyncClient) (m : gmap string string) (r : route)
    (request : Request) :
  m !! route_token r = None ->
  exists d,
    dispatch c m r request = ([], Raise {| exc_status_code := 404; detail := d |}) /\
    contains "expired" d = true /\
    (d = "Secure link expired" \/ d = "Stream link expired").
Proof.
  intros Hm. destruct r as [token filename|token|token filename]; simpl in Hm;
    unfold dispatch, stream_secure_ott, stream_by_token; rewrite Hm; simpl.
  - exists "Secure link expired". repeat split; auto.
  - exists "Stream link expired". repeat split; auto.
  - exists "Stream link expired". repeat split; auto.
Qed.

Lemma unknown_token_404_witness :
  (∅ : gmap string string) !! route_token (stream_token "0123") = None /\
  exists d,
    dispatch {| build_request_raises := fun _ _ _ => None; send := fun _ => inl "down" |}
      ∅ (stream_token "0123")
      {| req_headers := []; query_params := []; client_host := "10.0.0.1" |}
    = ([], Raise {| exc_status_code := 404; detail := d |}) /\
    contains "expired" d = true /\
    (d = "Secure link expired" \/ d = "Stream link expired").
Proof.
  split; [reflexivity|].
  apply (unknown_token_404 _ ∅ (stream_token "0123")). reflexivity.
Defined.

Lemma stream_engine_with_query c u request q :
  stream_engine c u (with_query request q) = stream_engine c u request.
Proof. reflexivity. Qed.

(** C9. The handlers of the three token routes never look at the query
    string: two requests that differ only there, whatever [exp] and [sig]
    they carry or omit, get the same events and the same outcome. *)
Theorem query_string_ignored (c : AsyncClient) (m : gmap string string) (r : route)
    (request : Request) (q1 q2 : list (string * string)) :
  dispatch c m r (with_query request q1) = dispatch c m r (with_query request q2).
Proof.
  destruct r as [token filename|token|token filename];
    unfold dispatch, stream_secure_ott, stream_by_token;
    rewrite !stream_engine_with_query; reflexivity.
Qed.

(** ** Stream proxy engine *)

Lemma async_for_chunks (pre : list string) (rest : list read) (s : gen_state) :
  async_for (map Chunk pre ++ rest) yield s =
  async_for rest yield {| yielded := yielded s ++ pre; stdout := stdout s;
                          closed := closed s |}.
Proof.
  revert s. induction pre as [|x pre IH]; intros s; simpl.
  - rewrite app_nil_r. destruct s; reflexivity.
  - unfold mbind, gen_bind, yield at 1. simpl. rewrite IH. simpl.
    rewrite <- app_assoc. reflexivity.
Qed.

(** C7. When a pull from the upstream body fails after some chunks were
    relayed, the generator has yielded exactly the chunks before the
    failure and none of what follows, it ends like an exhausted generator
    instead of raising, and the upstream response is closed. The response
    is closed on normal completion as well. *)
Theorem stream_video_mid_stream_failure (sc : Z) (hs : list (string * string))
    (pre : list string) (e : string) (rest : list read) :
  stream_video {| status_code := sc; resp_headers := hs;
                  body := map Chunk pre ++ ReadError e :: rest |} gen_init
  = (inr tt, {| yielded := pre; stdout := ["[STREAM ERROR] " +:+ e]; closed := true |})
  /\
  stream_video {| status_code := sc; resp_headers := hs; body := map Chunk pre |} gen_init
  = (inr tt, {| yielded := pre; stdout := []; closed := true |}).
Proof.
  unfold stream_video, try_finally, try_except; simpl. split.
  - rewrite async_for_chunks. reflexivity.
  - rewrite <- (app_nil_r (map Chunk pre)), async_for_chunks. reflexivity.
Qed.

Lemma prefix_refl (s : string) : String.prefix s s = true.
Proof.
  induction s as [|a s IH]; simpl; [reflexivity|].
  destruct (ascii_dec a a); [exact IH|congruence].
Qed.

Lemma contains_append (p s : string) : contains s (p +:+ s) = true.
Proof.
  induction p as [|a p IH].
  - change ("" +:+ s) with s.
    destruct s; [reflexivity|]. cbn [contains]. rewrite prefix_refl. reflexivity.
  - change (String a p +:+ s) with (String a (p +:+ s)).
    cbn [contains]. rewrite IH. apply orb_true_r.
Qed.

(** C8. When building the upstream request or sending it raises, before
    any byte of the body is relayed, the engine ends with an
    [HTTPException] of status 500 whose detail is "Proxy error: " followed
    by the message of the failure; no response, hence no body, is
    returned. *)
Theorem pre_stream_failure (c : AsyncClient) (u : string) (request : Request)
    (e : string) :
  truthy_str u = true ->
  build_request_raises c "GET" u (upstream_headers request) = Some e \/
  (build_request_raises c "GET" u (upstream_headers request) = None /\
   send c {| method := "GET"; url := u; headers := upstream_headers request |} = inl e) ->
  exists err,
    snd (stream_engine c u request) = Raise err /\
    exc_status_code err = 500%Z /\
    (500 <= exc_status_code err < 600)%Z /\
    detail err = "Proxy error: " +:+ e /\
    contains e (detail err) = true.
Proof.
  intros Hu Hfail. unfold stream_engine. rewrite Hu. simpl negb. cbv iota.
  exists {| exc_status_code := 500; detail := "Proxy error: " +:+ e |}.
  assert (Hc : contains e ("Proxy error: " +:+ e) = true) by apply contains_append.
  destruct Hfail as [Hb|[Hb Hs]]; rewrite Hb; [|rewrite Hs];
    simpl; repeat split; try lia; exact Hc.
Qed.

Lemma pre_stream_failure_witness :
  exists err,
    snd (stream_engine
           {| build_request_raises := fun _ _ _ => None;
              send := fun _ => inl "All connection attempts failed" |}
           "https://cdn.example/a.mp4"
           {| req_headers := [("range", "bytes=0-")]; query_params := [];
              client_host := "10.0.0.1" |}) = Raise err /\
    exc_status_code err = 500%Z /\
    (500 <= exc_status_code err < 600)%Z /\
    detail err = "Proxy error: All connection attempts failed" /\
    contains "All connection attempts failed" (detail err) = true.
Proof.
  apply (pre_stream_failure
           {| build_request_raises := fun _ _ _ => None;
              send := fun _ => inl "All connection attempts failed" |}
           "https://cdn.example/a.mp4"
           {| req_headers := [("range", "bytes=0-")]; query_params := [];
              client_host := "10.0.0.1" |}
           "All connection attempts failed").
  - reflexivity.
  - right. split; reflexivity.
Defined.

Lemma httpx_values_nil raw key :
  httpx_contains raw key = false -> httpx_values raw key = [].
Proof.
  unfold httpx_contains, httpx_values.
  induction raw as [|kv raw IH]; simpl; [reflexivity|].
  destruct (lower (fst kv) =? lower key)%string; simpl; [discriminate|exact IH].
Qed.

Lemma httpx_values_cons raw key :
  httpx_contains raw key = true -> httpx_values raw key <> [].
Proof.
  unfold httpx_contains, httpx_values.
  induction raw as [|kv raw IH]; simpl; [discriminate|].
  destruct (lower (fst kv) =? lower key)%string; simpl; [discriminate|exact IH].
Qed.

Lemma httpx_getitem_absent raw key :
  httpx_contains raw key = false -> httpx_getitem raw key = None.
Proof.
  intros H. unfold httpx_getitem. rewrite (httpx_values_nil _ _ H). reflexivity.
Qed.

Lemma httpx_getitem_present raw key dflt :
  httpx_contains raw key = true ->
  httpx_getitem raw key = Some (httpx_get raw key dflt).
Proof.
  intros H. apply httpx_values_cons in H. unfold httpx_get, httpx_getitem.
  destruct (httpx_values raw key); [congruence|reflexivity].
Qed.

Ltac lookup_headers :=
  repeat first
    [ rewrite lookup_insert_eq
    | rewrite lookup_insert_ne by discriminate
    | rewrite lookup_singleton_eq
    | rewrite lookup_singleton_ne by discriminate ].

Lemma response_headers_lookup (response : Response) :
  build_response_headers response !! "Accept-Ranges" = Some "bytes" /\
  build_response_headers response !! "Content-Type"
    = Some (httpx_get (resp_headers response) "Content-Type" "video/mp4") /\
  build_response_headers response !! "Content-Length"
    = httpx_getitem (resp_headers response) "Content-Length" /\
  build_response_headers response !! "Content-Range"
    = httpx_getitem (resp_headers response) "Content-Range".
Proof.
  unfold build_response_headers, httpx_item.
  destruct (httpx_contains (resp_headers response) "Content-Length") eqn:Hl;
    destruct (httpx_contains (resp_headers response) "Content-Range") eqn:Hr;
    lookup_headers;
    repeat split; symmetry;
    first [ apply httpx_getitem_present; assumption
          | apply httpx_getitem_absent; assumption ].
Qed.

Lemma response_headers_dom (response : Response) :
  dom (build_response_headers response) ⊆
  ({["Accept-Ranges"; "Content-Type"; "Content-Length"; "Content-Range"]} : gset string).
Proof.
  unfold build_response_headers, httpx_item.
  destruct (httpx_contains (resp_headers response) "Content-Length");
    destruct (httpx_contains (resp_headers response) "Content-Range");
    rewrite ?dom_insert_L, dom_singleton_L; set_solver.
Qed.

(** C3. When the upstream answers, the engine returns a streaming
    response with the upstream's status code whose headers are
    [Accept-Ranges: bytes], [Content-Type] with the upstream's value or
    [video/mp4] when the upstream sent none, [Content-Length] and
    [Content-Range] with the upstream's values exactly when the upstream
    sent them, and no other header; its body is the relay of the upstream
    body. *)
Theorem stream_engine_response (c : AsyncClient) (u : string) (request : Request)
    (response : Response) :
  truthy_str u = true ->
  build_request_raises c "GET" u (upstream_headers request) = None ->
  send c {| method := "GET"; url := u; headers := upstream_headers request |}
    = inr response ->
  exists sr,
    snd (stream_engine c u request) = Return sr /\
    sr_status_code sr = status_code response /\
    sr_headers sr !! "Content-Type"
      = Some (httpx_get (resp_headers response) "Content-Type" "video/mp4") /\
    (httpx_contains (resp_headers response) "Content-Type" = false ->
     sr_headers sr !! "Content-Type" = Some "video/mp4") /\
    sr_headers sr !! "Content-Length"
      = httpx_getitem (resp_headers response) "Content-Length" /\
    sr_headers sr !! "Content-Range"
      = httpx_getitem (resp_headers response) "Content-Range" /\
    sr_headers sr !! "Accept-Ranges" = Some "bytes" /\
    dom (sr_headers sr) ⊆
      ({["Accept-Ranges"; "Content-Type"; "Content-Length"; "Content-Range"]}
         : gset string) /\
    media_type sr = httpx_get (resp_headers response) "Content-Type" "video/mp4" /\
    content sr = stream_video response.
Proof.
  intros Hu Hb Hs. unfold stream_engine. rewrite Hu, Hb, Hs. cbn [negb snd].
  eexists. split; [reflexivity|]. cbn [sr_status_code sr_headers content media_type].
  destruct (response_headers_lookup response) as (Ha & Ht & Hl & Hr).
  repeat split; try assumption.
  - intros Habs. rewrite Ht. unfold httpx_get.
    rewrite (httpx_getitem_absent _ _ Habs). reflexivity.
  - apply response_headers_dom.
  - rewrite Ht. reflexivity.
Qed.

Lemma stream_engine_response_witness :
  exists sr,
    snd (stream_engine
           {| build_request_raises := fun _ _ _ => None;
              send := fun _ => inr {| status_code := 206;
                                      resp_headers := [("content-range", "bytes 100-199/1000");
                                                       ("Content-Length", "100")];
                                      body := [Chunk "abc"] |} |}
           "https://cdn.example/a.mp4"
           {| req_headers := [("range", "bytes=100-199")]; query_params := [];
              client_host := "10.0.0.1" |}) = Return sr /\
    sr_status_code sr = 206%Z /\
    sr_headers sr !! "Content-Type" = Some "video/mp4" /\
    sr_headers sr !! "Content-Length" = Some "100" /\
    sr_headers sr !! "Content-Range" = Some "bytes 100-199/1000" /\
    sr_headers sr !! "Accept-Ranges" = Some "bytes".
Proof.
  destruct (stream_engine_response
           {| build_request_raises := fun _ _ _ => None;
              send := fun _ => inr {| status_code := 206;
                                      resp_headers := [("content-range", "bytes 100-199/1000");
                                                       ("Content-Length", "100")];
                                      body := [Chunk "abc"] |} |}
           "https://cdn.example/a.mp4"
           {| req_headers := [("range", "bytes=100-199")]; query_params := [];
              client_host := "10.0.0.1" |}
           {| status_code := 206;
              resp_headers := [("content-range", "bytes 100-199/1000");
                               ("Content-Length", "100")];
              body := [Chunk "abc"] |}
           eq_refl eq_refl eq_refl)
    as (sr & H1 & H2 & H3 & _ & H4 & H5 & H6 & _).
  exists sr. repeat split; assumption.
Defined.

Lemma stream_engine_sends (c : AsyncClient) (u : string) (request : Request)
    (r : UpstreamRequest) :
  In (Send r) (fst (stream_engine c u request)) ->
  r = {| method := "GET"; url := u; headers := upstream_headers request |}.
Proof.
  unfold stream_engine. destruct (truthy_str u); simpl; [|tauto].
  destruct (build_request_raises c "GET" u (upstream_headers request)); simpl.
  - intros [H|[]]. discriminate.
  - destruct (send c _); simpl.
    + intros [H|[H|[]]]; [congruence|discriminate].
    + intros [H|[]]. congruence.
Qed.


(** Without an empty first [Range] value the wording holds. *)
Lemma range_forwarded_unless_empty (c : AsyncClient) (u : string) (request : Request) :
  starlette_get (req_headers request) "range" <> Some "" ->
  range_forwarded_iff_present c u request.
Proof.
  intros Hne r Hin v. apply stream_engine_sends in Hin. subst r.
  cbn [headers]. unfold upstream_headers, impersonation_headers.
  destruct (starlette_get (req_headers request) "range") as [v0|];
    [destruct v0 as [|a v0]; [congruence|]|]; cbn [truthy_str]; lookup_headers;
    reflexivity.
Qed.



(** ** Secure URL builder *)

Lemma length_sig (urandom : N) :
  length (take 8 (pystr_of_string (hex (uuid4 urandom)))) = 8.
Proof.
  rewrite length_take. unfold pystr_of_string.
  rewrite length_map, list_ascii_hex, length_map, length_seq. reflexivity.
Qed.

Lemma sig_hex (urandom : N) :
  Forall (fun c => is_hex c = true) (take 8 (pystr_of_string (hex (uuid4 urandom)))).
Proof. apply Forall_take, hex_digits. Qed.

Section SanitizedTitle.

Variables unicode_isspace unicode_isalnum : N -> bool.

Abbreviation space := (isspace unicode_isspace).
Abbreviation ok := (allowed unicode_isspace unicode_isalnum).
Abbreviation safe := (path_safe unicode_isspace unicode_isalnum).

Lemma allowed_not_space (c : N) : ok c = true -> space c = false -> safe c.
Proof.
  unfold path_safe, allowed. intros Ha Hs. split; [exact Hs|].
  rewrite Hs, orb_false_r in Ha. exact Ha.
Qed.

Lemma dot_path_safe : safe 46.
Proof. split; [reflexivity|]. apply orb_true_r. Qed.

Lemma re_sub_spaces_path_safe (s : list N) :
  Forall (fun c => ok c = true) s ->
  Forall safe (re_sub_spaces unicode_isspace s) /\
  Forall safe (in_match unicode_isspace s).
Proof.
  induction s as [|c s IH]; intros Hall; simpl.
  - split; constructor.
  - inversion Hall as [|? ? Hc Hs]; subst. destruct (IH Hs) as [IH1 IH2].
    destruct (space c) eqn:E.
    + split; [constructor; [exact dot_path_safe|exact IH2]|exact IH2].
    + split; constructor; try exact IH1; apply allowed_not_space; assumption.
Qed.

Lemma safe_title_path_safe (title : list N) :
  Forall safe (safe_title unicode_isspace unicode_isalnum title).
Proof.
  unfold safe_title. apply re_sub_spaces_path_safe.
  unfold re_sub_disallowed. apply List.Forall_forall. intros c Hc.
  apply filter_In in Hc. exact (proj2 Hc).
Qed.

(** [strip] removes the whitespace around the core of a text. *)
Lemma lstrip_spaces (l s : list N) :
  Forall (fun c => space c = true) l ->
  lstrip unicode_isspace (l ++ s) = lstrip unicode_isspace s.
Proof. induction 1 as [|c l Hc _ IH]; simpl; [reflexivity|]. rewrite Hc. exact IH. Qed.

Lemma lstrip_starts_nonspace (s : list N) :
  starts_nonspace unicode_isspace s -> lstrip unicode_isspace s = s.
Proof. destruct s as [|c s]; simpl; [reflexivity|]. intros ->. reflexivity. Qed.

Lemma ends_nonspace_rev (s : list N) :
  ends_nonspace unicode_isspace s -> starts_nonspace unicode_isspace (rev s).
Proof.
  induction s as [|c s IH]; [exact id|]. destruct s as [|c' s].
  - exact id.
  - intros He. specialize (IH He).
    change (rev (c :: c' :: s)) with (rev (c' :: s) ++ [c]).
    destruct (rev (c' :: s)) as [|x r] eqn:E; [|exact IH].
    apply (f_equal (@length N)) in E. rewrite length_rev in E. discriminate.
Qed.

Lemma strip_core (l core r : list N) :
  Forall (fun c => space c = true) l -> Forall (fun c => space c = true) r ->
  starts_nonspace unicode_isspace core -> ends_nonspace unicode_isspace core ->
  strip unicode_isspace (l ++ core ++ r) = core.
Proof.
  intros Hl Hr Hs He. unfold strip. rewrite lstrip_spaces by exact Hl.
  destruct core as [|c core].
  - cbn [app]. rewrite <- (app_nil_r r), lstrip_spaces by exact Hr. reflexivity.
  - rewrite (lstrip_starts_nonspace ((c :: core) ++ r)) by exact Hs.
    rewrite rev_app_distr, lstrip_spaces.
    + rewrite lstrip_starts_nonspace by (apply ends_nonspace_rev; exact He).
      apply rev_involutive.
    + apply Forall_rev. exact Hr.
Qed.

(** [re_sub_spaces] leaves a text without whitespace alone and puts one dot
    for a whole run of whitespace between two parts. *)
Lemma in_match_spaces (ws b : list N) :
  Forall (fun c => space c = true) ws ->
  in_match unicode_isspace (ws ++ b) = in_match unicode_isspace b.
Proof. induction 1 as [|c ws Hc _ IH]; simpl; [reflexivity|]. rewrite Hc. exact IH. Qed.

Lemma in_match_starts_nonspace (b : list N) :
  starts_nonspace unicode_isspace b ->
  in_match unicode_isspace b = re_sub_spaces unicode_isspace b.
Proof. destruct b as [|c b]; simpl; [reflexivity|]. intros ->. reflexivity. Qed.

Lemma re_sub_spaces_no_space (s : list N) :
  Forall (fun c => space c = false) s -> re_sub_spaces unicode_isspace s = s.
Proof.
  induction 1 as [|c s Hc _ IH]; simpl; [reflexivity|]. rewrite Hc, IH. reflexivity.
Qed.

Lemma re_sub_spaces_app (a rest : list N) :
  ends_nonspace unicode_isspace a ->
  re_sub_spaces unicode_isspace (a ++ rest)
  = re_sub_spaces unicode_isspace a ++ re_sub_spaces unicode_isspace rest /\
  (a <> [] ->
   in_match unicode_isspace (a ++ rest)
   = in_match unicode_isspace a ++ re_sub_spaces unicode_isspace rest).
Proof.
  induction a as [|c a IH]; intros He.
  - split; [reflexivity|congruence].
  - destruct a as [|c' a].
    + simpl in He. simpl. rewrite He. split; reflexivity.
    + destruct (IH He) as [IH1 IH2]. specialize (IH2 ltac:(discriminate)).
      change ((c :: c' :: a) ++ rest) with (c :: (c' :: a) ++ rest).
      cbn [re_sub_spaces in_match].
      rewrite IH1, IH2. destruct (space c); split; reflexivity.
Qed.

Lemma re_sub_spaces_run (a ws b : list N) :
  ends_nonspace unicode_isspace a -> ws <> [] ->
  Forall (fun c => space c = true) ws ->
  starts_nonspace unicode_isspace b ->
  re_sub_spaces unicode_isspace (a ++ ws ++ b)
  = re_sub_spaces unicode_isspace a ++ 46%N :: re_sub_spaces unicode_isspace b.
Proof.
  intros Ha Hne Hws Hb. rewrite (proj1 (re_sub_spaces_app a (ws ++ b) Ha)). f_equal.
  destruct Hws as [|c ws Hc Hws]; [congruence|]. simpl. rewrite Hc.
  rewrite in_match_spaces by exact Hws. rewrite in_match_starts_nonspace by exact Hb.
  reflexivity.
Qed.


End SanitizedTitle.

Lemma q_str_cases (quality : list N) :
  let q := replace_char 46 (replace_char 32 quality) in
  (q = [] /\ q_str quality = pystr_of_string "HD") \/
  (q <> [] /\ q_str quality = q).
Proof.
  unfold q_str. destruct (replace_char 46 (replace_char 32 quality)); simpl.
  - left. split; reflexivity.
  - right. split; [discriminate|reflexivity].
Qed.

Lemma q_str_clean (quality : list N) :
  q_str quality <> [] /\ Forall (fun c => c <> 32%N /\ c <> 46%N) (q_str quality).
Proof.
  destruct (q_str_cases quality) as [[_ ->]|[Hne ->]].
  - split; [discriminate|]. repeat constructor; discriminate.
  - split; [exact Hne|]. apply List.Forall_forall. intros c Hc.
    unfold replace_char in Hc. apply filter_In in Hc. destruct Hc as [Hc H46].
    apply filter_In in Hc. destruct Hc as [_ H32].
    apply negb_true_iff, N.eqb_neq in H46, H32. split; assumption.
Qed.

(** On a label without whitespace at its ends the builder follows the
    wording. *)
Lemma builder_as_worded_trimmed (unicode_isspace unicode_isalnum : N -> bool) (now : Q)
    (urandom : N) (token label quality : list N) :
  strip unicode_isspace label = label ->
  builder_as_worded unicode_isspace unicode_isalnum now urandom token label quality.
Proof.
  intros Hs. unfold builder_as_worded, make_secure_url, secure_url_spec, safe_title,
    sanitized_label_spec. rewrite Hs. reflexivity.
Qed.

(** The builder on a label with a leading space: the space is trimmed
    before the other steps, so the segment is not the one the wording
    gives. *)
Lemma leading_space_trimmed :
  make_secure_url ascii_only ascii_only 0 0 (pystr_of_string "t") (pystr_of_string " A")
    (pystr_of_string "HD")
  = pystr_of_string "/v/t/A.HD.mp4?token=exp=21600&sig=00000000" /\
  secure_url_spec ascii_only ascii_only 0 0 (pystr_of_string "t") (pystr_of_string " A")
    (pystr_of_string "HD")
  = pystr_of_string "/v/t/.A.HD.mp4?token=exp=21600&sig=00000000" /\
  ~ builder_as_worded ascii_only ascii_only 0 0 (pystr_of_string "t")
      (pystr_of_string " A") (pystr_of_string "HD").
Proof.
  split; [vm_compute; reflexivity|]. split; [vm_compute; reflexivity|].
  unfold builder_as_worded. intros H. vm_compute in H. discriminate H.
Qed.

(** C6. The URL is [/v/{token}/{stem}.{quality}.mp4?token=exp={epoch}&sig={sig}]
    where the stem is the label trimmed of leading and trailing
    whitespace, then stripped of every character outside word characters,
    whitespace, hyphen and dot, then with each whitespace run collapsed to
    one dot; the quality is the tag without spaces and dots, or "HD" when
    nothing is left; the epoch is the clock reading in whole seconds plus
    6 hours; the signature is 8 hexadecimal digits. The label
    "The Movie: Part 2!" gives the stem "The.Movie.Part.2". *)
Theorem make_secure_url_shape (unicode_isspace unicode_isalnum : N -> bool) (now : Q)
    (urandom : N) (token label quality : list N) :
  let stem := sanitized_label_spec unicode_isspace unicode_isalnum
                (strip unicode_isspace label) in
  let q := q_str quality in
  let normalized := replace_char 46 (replace_char 32 quality) in
  let sig := take 8 (pystr_of_string (hex (uuid4 urandom))) in
  make_secure_url unicode_isspace unicode_isalnum now urandom token label quality
  = pystr_of_string "/v/" ++ token ++ pystr_of_string "/" ++ stem
      ++ pystr_of_string "." ++ q ++ pystr_of_string ".mp4?token=exp="
      ++ str_of_int (int_of_float now + 6 * 3600)
      ++ pystr_of_string "&sig=" ++ sig /\
  Forall (path_safe unicode_isspace unicode_isalnum) stem /\
  ((normalized = [] /\ q = pystr_of_string "HD") \/ (normalized <> [] /\ q = normalized)) /\
  length sig = 8 /\
  Forall (fun c => is_hex c = true) sig /\
  safe_title unicode_isspace unicode_isalnum (pystr_of_string "The Movie: Part 2!")
  = pystr_of_string "The.Movie.Part.2" /\
  q_str (pystr_of_string "") = pystr_of_string "HD".
Proof.
  intros stem q normalized sig.
  split; [reflexivity|]. split; [apply safe_title_path_safe|].
  split; [apply q_str_cases|]. split; [apply length_sig|].
  split; [apply sig_hex|]. split; reflexivity.
Qed.

(** * Further properties of the code *)

(** ** Histories of cache operations *)

Lemma last_set_app (key : string) (a b : list cache_op) :
  last_set key (a ++ b)
  = match last_set key b with Some e => Some e | None => last_set key a end.
Proof.
  induction a as [|op a IH]; simpl.
  - destruct (last_set key b); reflexivity.
  - rewrite IH. destruct (last_set key b); reflexivity.
Qed.

Lemma run_cache_op_last_set (pre : list cache_op) (op : cache_op)
    (c : gmap string (pyval * Q)) :
  (forall k e, c !! k = Some e -> last_set k pre = Some e) ->
  forall k e, run_cache_op c op !! k = Some e -> last_set k (pre ++ [op]) = Some e.
Proof.
  intros Hinv k e. rewrite last_set_app. destruct op as [now key|now key value]; simpl.
  - intros H. apply Hinv. revert H. unfold get_cached.
    destruct (c !! key) as [[v ts]|] eqn:Hk; [|exact id].
    destruct (Qltb _ _); simpl; [exact id|].
    destruct (decide (key = k)) as [->|Hne].
    + rewrite lookup_delete_eq. discriminate.
    + rewrite lookup_delete_ne by exact Hne. exact id.
  - unfold set_cached. destruct (String.eqb_spec key k) as [->|Hne].
    + rewrite lookup_insert_eq. exact id.
    + rewrite lookup_insert_ne by exact Hne. apply Hinv.
Qed.

Lemma run_cache_ops_last_set (ops pre : list cache_op) (c : gmap string (pyval * Q)) :
  (forall k e, c !! k = Some e -> last_set k pre = Some e) ->
  forall k e, run_cache_ops ops c !! k = Some e -> last_set k (pre ++ ops) = Some e.
Proof.
  revert pre c. induction ops as [|op ops IH]; intros pre c Hinv k e; simpl.
  - rewrite app_nil_r. apply Hinv.
  - intros H.
    replace (pre ++ op :: ops) with ((pre ++ [op]) ++ ops)
      by (rewrite <- app_assoc; reflexivity).
    apply (IH (pre ++ [op]) (run_cache_op c op)); [|exact H].
    apply run_cache_op_last_set. exact Hinv.
Qed.

(** X1. Whatever calls of [get_cached] and [set_cached] were made on an
    initially empty cache, a [get_cached] that returns a value other than
    [None] returns the value of the latest [set_cached] of that key, and
    that call read the clock less than 600 seconds before. *)
Theorem cache_hit_is_latest_set (ops : list cache_op) (now : Q) (k : string) (v : pyval) :
  fst (get_cached now k (run_cache_ops ops ∅)) = v ->
  v <> PyNone ->
  exists ts, last_set k ops = Some (v, ts) /\ (now - ts < 600)%Q.
Proof.
  intros Hget Hv. unfold get_cached in Hget.
  destruct (run_cache_ops ops ∅ !! k) as [[v' ts]|] eqn:Hk; [|simpl in Hget; congruence].
  destruct (Qltb (now - ts) _cache_ttl) eqn:Hf; simpl in Hget; [|congruence].
  subst v'. exists ts. split; [|apply Qltb_lt; exact Hf].
  apply (run_cache_ops_last_set ops [] ∅); [|exact Hk].
  intros k0 e0. rewrite lookup_empty. discriminate.
Qed.

Lemma cache_hit_is_latest_set_witness :
  exists ts,
    last_set "home" [CacheSet 0 "home" (PyStr "a"); CacheGet 700 "home";
                     CacheSet 800 "home" (PyStr "b"); CacheGet 900 "other"]
    = Some (PyStr "b", ts) /\ (1000 - ts < 600)%Q.
Proof.
  apply (cache_hit_is_latest_set
           [CacheSet 0 "home" (PyStr "a"); CacheGet 700 "home";
            CacheSet 800 "home" (PyStr "b"); CacheGet 900 "other"] 1000 "home" (PyStr "b")).
  - vm_compute. reflexivity.
  - discriminate.
Defined.

Lemma run_cache_op_other (c : gmap string (pyval * Q)) (op : cache_op) (k : string) :
  cache_op_key op <> k -> run_cache_op c op !! k = c !! k.
Proof.
  destruct op as [now key|now key value]; simpl; intros Hne.
  - apply get_cached_other. exact Hne.
  - apply lookup_insert_ne. exact Hne.
Qed.

(** X2. Calls on other keys never touch an entry: after any run of
    [get_cached] and [set_cached] calls none of which names [k], the
    dictionary holds for [k] what it held before, however old that entry
    is; a stale entry leaves the dictionary only when it is read itself. *)
Theorem cache_ops_frame (ops : list cache_op) (k : string) (c : gmap string (pyval * Q)) :
  Forall (fun op => cache_op_key op <> k) ops ->
  run_cache_ops ops c !! k = c !! k.
Proof.
  intros Hall. revert c. induction Hall as [|op ops Hop _ IH]; intros c; simpl.
  - reflexivity.
  - rewrite IH. apply run_cache_op_other. exact Hop.
Qed.

Lemma cache_ops_frame_witness :
  run_cache_ops [CacheGet 100000 "other"; CacheSet 100001 "other" PyNone]
    (set_cached 0 "home" (PyStr "a") (set_cached 0 "other" (PyStr "b") ∅)) !! "home"
  = Some (PyStr "a", 0%Q).
Proof.
  rewrite (cache_ops_frame [CacheGet 100000 "other"; CacheSet 100001 "other" PyNone]
             "home").
  - reflexivity.
  - repeat constructor; discriminate.
Defined.

(** ** Durations *)

(** X3. For an integer number of seconds other than zero,
    [format_duration] shows whole hours and the minutes left over, the
    minutes always between 0 and 59, and leaves the hours out unless they
    are positive (so a negative duration shows minutes only). A falsy
    argument, or one that [int] rejects, gives ["N/A"]. *)
Theorem format_duration_hours_minutes (int_of_str : string -> option Z) (seconds : Z) :
  seconds <> 0%Z ->
  (exists h m r : Z,
     seconds = (3600 * h + 60 * m + r)%Z /\ (0 <= m < 60)%Z /\ (0 <= r < 60)%Z /\
     format_duration int_of_str (PyInt seconds)
     = if (0 <? h)%Z then decimal h +:+ "h " +:+ decimal m +:+ "m"
       else decimal m +:+ "m") /\
  (forall v, py_truthy v = false \/ py_int int_of_str v = None ->
             format_duration int_of_str v = "N/A").
Proof.
  intros Hs. split.
  - exists (seconds / 3600)%Z, ((seconds mod 3600) / 60)%Z, ((seconds mod 3600) mod 60)%Z.
    pose proof (Z.mod_pos_bound seconds 3600 ltac:(lia)) as Hm.
    pose proof (Z.mod_pos_bound (seconds mod 3600) 60 ltac:(lia)) as Hr.
    pose proof (Z.div_mod seconds 3600 ltac:(lia)) as E1.
    pose proof (Z.div_mod (seconds mod 3600) 60 ltac:(lia)) as E2.
    split; [lia|]. split.
    + split; [apply Z.div_pos; lia|apply Z.div_lt_upper_bound; lia].
    + split; [exact Hr|]. unfold format_duration. simpl py_truthy.
      destruct (Z.eqb_spec seconds 0) as [E|_]; [contradiction|]. reflexivity.
  - intros v [Hv|Hv]; unfold format_duration.
    + rewrite Hv. reflexivity.
    + rewrite Hv. destruct (py_truthy v); reflexivity.
Qed.

Lemma format_duration_hours_minutes_witness :
  format_duration (fun _ => None) (PyInt 5400) = "1h 30m" /\
  format_duration (fun _ => None) (PyInt (-1)) = "59m" /\
  format_duration (fun _ => None) (PyList [PyInt 1]) = "N/A".
Proof.
  destruct (format_duration_hours_minutes (fun _ => None) 5400 ltac:(discriminate))
    as [_ Hna].
  split; [reflexivity|]. split; [reflexivity|].
  apply Hna. right. reflexivity.
Defined.

(** ** Homepage slicing *)

(** X4. The two partial modes of the homepage split the section list: the
    ['init'] slice followed by the ['more'] slice is the whole list, the
    ['init'] slice has at most three sections, and every other mode
    returns the whole list. *)
Theorem slice_sections_partition {A : Type} (sections : list A) :
  slice_sections "init" sections ++ slice_sections "more" sections = sections /\
  length (slice_sections "init" sections) <= 3 /\
  (forall mode, mode <> "init" -> mode <> "more" ->
                slice_sections mode sections = sections).
Proof.
  split; [|split].
  - unfold slice_sections. simpl.
    destruct (Nat.ltb_spec 3 (length sections)) as [Hl|Hl].
    + apply take_drop.
    + rewrite take_ge by lia. apply app_nil_r.
  - unfold slice_sections. simpl. rewrite length_take. lia.
  - intros mode H1 H2. unfold slice_sections.
    destruct (String.eqb_spec mode "init"); [contradiction|].
    destruct (String.eqb_spec mode "more"); [contradiction|]. reflexivity.
Qed.

(** ** Client address and upstream session *)

Lemma str_lstrip_split (s : list ascii) :
  exists l, s = l ++ str_lstrip s /\
            Forall (fun c => latin1_isspace c = true) l /\ starts_clean (str_lstrip s).
Proof.
  induction s as [|c s (l & E & Hl & Hc)]; simpl.
  - exists []. repeat split; constructor.
  - destruct (latin1_isspace c) eqn:Hsp.
    + exists (c :: l). simpl. rewrite <- E. repeat split; [constructor|]; assumption.
    + exists []. simpl. repeat split; [constructor|exact Hsp].
Qed.

Lemma str_strip_split (s : list ascii) :
  let r := rev (str_lstrip (rev (str_lstrip s))) in
  exists l t, s = l ++ r ++ t /\
    Forall (fun c => latin1_isspace c = true) l /\
    Forall (fun c => latin1_isspace c = true) t /\
    starts_clean r /\ starts_clean (rev r).
Proof.
  intros r. destruct (str_lstrip_split s) as (l & E1 & Hl & Hc1).
  destruct (str_lstrip_split (rev (str_lstrip s))) as (t' & E2 & Ht & Hc2).
  assert (E3 : str_lstrip s = r ++ rev t').
  { rewrite <- (rev_involutive (str_lstrip s)), E2 at 1. apply rev_app_distr. }
  exists l, (rev t'). split; [rewrite <- E3; exact E1|].
  split; [exact Hl|]. split; [apply Forall_rev; exact Ht|]. split.
  - rewrite E3 in Hc1. destruct r; [exact I|exact Hc1].
  - unfold r. rewrite rev_involutive. exact Hc2.
Qed.

Lemma before_comma_split (s : string) :
  exists rest,
    list_ascii_of_string s = list_ascii_of_string (before_comma s) ++ rest /\
    (rest = [] \/ exists rest', rest = ","%char :: rest') /\
    ~ In ","%char (list_ascii_of_string (before_comma s)).
Proof.
  induction s as [|c s (rest & E & Hr & Hn)]; simpl.
  - exists []. split; [reflexivity|]. split; [left; reflexivity|tauto].
  - destruct (Ascii.eqb_spec c ",") as [->|Hne]; simpl.
    + exists (","%char :: list_ascii_of_string s). split; [reflexivity|].
      split; [right; eexists; reflexivity|tauto].
    + exists rest. rewrite E. split; [reflexivity|]. split; [exact Hr|].
      intros [H|H]; [congruence|exact (Hn H)].
Qed.

Lemma get_client_ip_first_hop_aux (request : Request) (forwarded : string) :
  starlette_get (req_headers request) "x-forwarded-for" = Some forwarded ->
  truthy_str forwarded = true ->
  let ip := list_ascii_of_string (get_client_ip request) in
  ~ In ","%char ip /\ starts_clean ip /\ starts_clean (rev ip) /\
  exists l t rest,
    list_ascii_of_string forwarded = l ++ ip ++ t ++ rest /\
    Forall (fun c => latin1_isspace c = true) l /\
    Forall (fun c => latin1_isspace c = true) t /\
    (rest = [] \/ exists rest', rest = ","%char :: rest').
Proof.
  intros Hget Ht ip. unfold ip, get_client_ip. rewrite Hget, Ht.
  unfold str_strip. rewrite list_ascii_of_string_of_list_ascii.
  destruct (before_comma_split forwarded) as (rest & E & Hrest & Hn).
  destruct (str_strip_split (list_ascii_of_string (before_comma forwarded)))
    as (l & t & E' & Hl & Htl & Hc1 & Hc2).
  set (r := rev (str_lstrip (rev (str_lstrip
              (list_ascii_of_string (before_comma forwarded)))))) in *.
  split; [|split; [exact Hc1|split; [exact Hc2|]]].
  - intros Hin. apply Hn. rewrite E'. apply in_or_app. right.
    apply in_or_app. left. exact Hin.
  - exists l, t, rest. split; [|repeat split; assumption].
    rewrite E, E', <- !app_assoc. reflexivity.
Qed.

(** X5. With a non-empty [X-Forwarded-For] header, the client address is
    the first hop of the list: the text before the first comma without the
    whitespace around it. So it contains no comma and neither begins nor
    ends with whitespace. *)
Theorem get_client_ip_first_hop (request : Request) (forwarded : string) :
  starlette_get (req_headers request) "x-forwarded-for" = Some forwarded ->
  truthy_str forwarded = true ->
  let ip := list_ascii_of_string (get_client_ip request) in
  ~ In ","%char ip /\ starts_clean ip /\ starts_clean (rev ip) /\
  exists l t rest,
    list_ascii_of_string forwarded = l ++ ip ++ t ++ rest /\
    Forall (fun c => latin1_isspace c = true) l /\
    Forall (fun c => latin1_isspace c = true) t /\
    (rest = [] \/ exists rest', rest = ","%char :: rest').
Proof. exact (get_client_ip_first_hop_aux request forwarded). Qed.

Lemma get_client_ip_first_hop_witness :
  get_client_ip {| req_headers := [("x-forwarded-for", " 203.0.113.7 , 10.0.0.2")];
                   query_params := []; client_host := "10.0.0.1" |} = "203.0.113.7" /\
  ~ In ","%char (list_ascii_of_string
      (get_client_ip {| req_headers := [("x-forwarded-for", " 203.0.113.7 , 10.0.0.2")];
                        query_params := []; client_host := "10.0.0.1" |})).
Proof.
  split; [reflexivity|].
  apply (get_client_ip_first_hop
           {| req_headers := [("x-forwarded-for", " 203.0.113.7 , 10.0.0.2")];
              query_params := []; client_host := "10.0.0.1" |}
           " 203.0.113.7 , 10.0.0.2"); reflexivity.
Defined.

Lemma session_base_headers_no_ip :
  session_base_headers !! "X-Forwarded-For" = None /\
  session_base_headers !! "X-Real-IP" = None.
Proof. unfold session_base_headers. lookup_headers. split; reflexivity. Qed.

Lemma truthy_str_nonempty (s : string) : truthy_str s = true <-> s <> "".
Proof. destruct s; simpl; split; congruence. Qed.

Lemma is_localhost_false (client_ip : option string) :
  is_localhost client_ip = false <->
  exists ip, client_ip = Some ip /\ ip <> "" /\ ip <> "127.0.0.1" /\
             ip <> "localhost" /\ ip <> "::1".
Proof.
  unfold is_localhost. destruct client_ip as [ip|]; simpl.
  - rewrite !orb_false_iff, negb_false_iff, truthy_str_nonempty, !String.eqb_neq.
    split.
    + intros (H0 & (H1 & H2) & H3). exists ip. repeat split; assumption.
    + intros (ip' & E & H0 & H1 & H2 & H3). injection E as <-.
      repeat split; assumption.
  - split; [discriminate|]. intros (ip & E & _). discriminate.
Qed.

Lemma get_session_headers_aux (BD_PROXY_URL client_ip : option string) :
  let s := snd (get_session BD_PROXY_URL client_ip) in
  session_headers s !! "X-Forwarded-For" = session_headers s !! "X-Real-IP" /\
  (forall a, session_headers s !! "X-Forwarded-For" = Some a <->
             client_ip = Some a /\ a <> "" /\ a <> "127.0.0.1" /\
             a <> "localhost" /\ a <> "::1") /\
  (forall k v, session_base_headers !! k = Some v -> session_headers s !! k = Some v) /\
  proxy s = (if truthy BD_PROXY_URL then BD_PROXY_URL else None).
Proof.
  intros s.
  assert (Hh : session_headers s
               = if negb (is_localhost client_ip)
                 then <["X-Real-IP" := default "" client_ip]>
                        (<["X-Forwarded-For" := default "" client_ip]> session_base_headers)
                 else session_base_headers).
  { unfold s, get_session. destruct BD_PROXY_URL as [p|]; [destruct (truthy_str p)|];
      reflexivity. }
  destruct session_base_headers_no_ip as [Hf Hr].
  split; [|split; [|split]].
  - rewrite Hh. destruct (is_localhost client_ip); simpl.
    + rewrite Hf, Hr. reflexivity.
    + lookup_headers. reflexivity.
  - intros a. rewrite Hh. destruct (is_localhost client_ip) eqn:Hloc; simpl.
    + rewrite Hf. split; [discriminate|]. intros (E & H).
      assert (Hcontra : is_localhost client_ip = false)
        by (apply is_localhost_false; exists a; split; assumption).
      congruence.
    + apply is_localhost_false in Hloc. destruct Hloc as (ip & -> & Hip).
      lookup_headers. simpl. split.
      * intros E. injection E as <-. split; [reflexivity|exact Hip].
      * intros (E & _). exact E.
  - intros k v Hk. rewrite Hh. destruct (is_localhost client_ip); simpl; [exact Hk|].
    destruct session_base_headers_no_ip as [Hf' Hr'].
    rewrite !lookup_insert_ne; [exact Hk| |]; intros <-; congruence.
  - unfold s, get_session. destruct BD_PROXY_URL as [p|]; simpl; [|reflexivity].
    destruct (truthy_str p); reflexivity.
Qed.

(** X6. The session forwards the client address exactly when an address
    is given that is not empty and not one of [127.0.0.1], [localhost] and
    [::1]; it then sets both [X-Forwarded-For] and [X-Real-IP] to that
    address, and otherwise sets neither. The nine fixed headers are sent in
    every case, and the proxy is used exactly when [BD_PROXY_URL] is set
    and not empty. *)
Theorem get_session_headers (BD_PROXY_URL client_ip : option string) :
  let s := snd (get_session BD_PROXY_URL client_ip) in
  session_headers s !! "X-Forwarded-For" = session_headers s !! "X-Real-IP" /\
  (forall a, session_headers s !! "X-Forwarded-For" = Some a <->
             client_ip = Some a /\ a <> "" /\ a <> "127.0.0.1" /\
             a <> "localhost" /\ a <> "::1") /\
  (forall k v, session_base_headers !! k = Some v -> session_headers s !! k = Some v) /\
  proxy s = (if truthy BD_PROXY_URL then BD_PROXY_URL else None).
Proof. exact (get_session_headers_aux BD_PROXY_URL client_ip). Qed.

(** X7. A handler that builds its session from the request forwards at
    most the first hop of an inbound [X-Forwarded-For] list, never the
    list; and when that first hop is blank the session carries no client
    address at all, whatever the peer address of the connection is. *)
Theorem session_forwards_first_hop (BD_PROXY_URL : option string) (request : Request)
    (forwarded : string) :
  starlette_get (req_headers request) "x-forwarded-for" = Some forwarded ->
  truthy_str forwarded = true ->
  let s := snd (get_session BD_PROXY_URL (Some (get_client_ip request))) in
  (forall a, session_headers s !! "X-Forwarded-For" = Some a ->
             a = get_client_ip request /\ ~ In ","%char (list_ascii_of_string a)) /\
  (Forall (fun c => latin1_isspace c = true)
          (list_ascii_of_string (before_comma forwarded)) ->
   session_headers s !! "X-Forwarded-For" = None /\
   session_headers s !! "X-Real-IP" = None).
Proof.
  intros Hget Ht s.
  destruct (get_session_headers_aux BD_PROXY_URL (Some (get_client_ip request)))
    as (Heq & Hiff & _).
  fold s in Heq, Hiff. split.
  - intros a Ha. apply Hiff in Ha. destruct Ha as (E & _). injection E as E.
    split; [symmetry; exact E|]. rewrite <- E.
    exact (proj1 (get_client_ip_first_hop_aux request forwarded Hget Ht)).
  - intros Hblank.
    assert (Hempty : get_client_ip request = "").
    { unfold get_client_ip. rewrite Hget, Ht. unfold str_strip.
      assert (E : str_lstrip (list_ascii_of_string (before_comma forwarded)) = []).
      { induction Hblank as [|c l Hc _ IH]; simpl; [reflexivity|]. rewrite Hc. exact IH. }
      rewrite E. reflexivity. }
    assert (Hnone : session_headers s !! "X-Forwarded-For" = None).
    { apply eq_None_not_Some. intros [a Ha].
      apply Hiff in Ha. destruct Ha as (E & Hne & _). injection E as E. congruence. }
    split; [exact Hnone|]. rewrite <- Heq. exact Hnone.
Qed.

Lemma session_forwards_first_hop_witness :
  session_headers
    (snd (get_session None
            (Some (get_client_ip
                     {| req_headers := [("x-forwarded-for", " , 203.0.113.7")];
                        query_params := []; client_host := "198.51.100.4" |}))))
    !! "X-Forwarded-For" = None.
Proof.
  refine (proj1 (proj2 (session_forwards_first_hop None
           {| req_headers := [("x-forwarded-for", " , 203.0.113.7")];
              query_params := []; client_host := "198.51.100.4" |}
           " , 203.0.113.7" eq_refl eq_refl) _)).
  repeat constructor.
Defined.

(** ** What the token routes send and raise *)


Lemma prefix_append (p s : string) : String.prefix p (p +:+ s) = true.
Proof.
  induction p as [|a p IH].
  - destruct s; reflexivity.
  - change (String a p +:+ s) with (String a (p +:+ s)). simpl.
    destruct (ascii_dec a a); [exact IH|congruence].
Qed.

(** X9. The token routes end in one of three ways only: a 404 (the token
    is unknown or its stored URL is empty), a 500 whose detail starts with
    ["Proxy error: "], or a streaming response. They never raise the 400 of
    the engine, which is reserved to an empty URL given to [proxy_video]. *)
Theorem token_routes_statuses (c : AsyncClient) (m : gmap string string) (r : route)
    (request : Request) :
  (forall e, snd (dispatch c m r request) = Raise e ->
     (exc_status_code e = 404%Z /\ truthy (m !! route_token r) = false) \/
     (exc_status_code e = 500%Z /\ String.prefix "Proxy error: " (detail e) = true)) /\
  snd (proxy_video c "" request)
  = Raise {| exc_status_code := 400; detail := "Missing URL" |} /\
  fst (proxy_video c "" request) = [].
Proof.
  split; [|split; reflexivity].
  intros e.
  assert (Hd : snd (dispatch c m r request)
               = if negb (truthy (m !! route_token r))
                 then Raise {| exc_status_code := 404;
                               detail := match r with
                                         | v_token_filename _ _ => "Secure link expired"
                                         | _ => "Stream link expired"
                                         end |}
                 else snd (stream_engine c (default "" (m !! route_token r)) request)).
  { destruct r; simpl; unfold stream_secure_ott, stream_by_token;
      destruct (negb (truthy (m !! _))); reflexivity. }
  rewrite Hd. destruct (truthy (m !! route_token r)) eqn:Ht; simpl.
  - destruct (m !! route_token r) as [u|]; [|discriminate]. simpl in *.
    unfold stream_engine. rewrite Ht. simpl.
    destruct (build_request_raises c "GET" u (upstream_headers request)); simpl.
    + intros E. injection E as <-. right. split; [reflexivity|apply prefix_append].
    + destruct (send c _); simpl; [|discriminate].
      intros E. injection E as <-. right. split; [reflexivity|apply prefix_append].
  - intros E. injection E as <-. left. split; reflexivity.
Qed.

(** ** Upstream header names *)

Lemma lower_ascii_idempotent (c : ascii) : lower_ascii (lower_ascii c) = lower_ascii c.
Proof. destruct c as [[] [] [] [] [] [] [] []]; reflexivity. Qed.

Lemma httpx_values_same (raw1 raw2 : list (string * string)) (key : string) :
  same_up_to_case raw1 raw2 -> httpx_values raw1 key = httpx_values raw2 key.
Proof.
  unfold httpx_values. induction 1 as [|a b raw1 raw2 [Hk Hv] _ IH]; simpl.
  - reflexivity.
  - rewrite Hk. destruct (lower (fst b) =? lower key)%string; simpl.
    + rewrite Hv, IH. reflexivity.
    + exact IH.
Qed.

Lemma httpx_contains_values (raw : list (string * string)) (key : string) :
  httpx_contains raw key = negb (match httpx_values raw key with [] => true | _ => false end).
Proof.
  destruct (httpx_contains raw key) eqn:E.
  - apply httpx_values_cons in E. destruct (httpx_values raw key); [congruence|reflexivity].
  - rewrite (httpx_values_nil _ _ E). reflexivity.
Qed.

(** X10. The response headers do not depend on how the upstream spells
    header names: two upstream responses whose headers differ only in the
    letter case of the names give the same [Content-Type],
    [Content-Length] and [Content-Range] to the client; in particular a
    lower-case [content-range] is copied as [Content-Range]. *)
Theorem response_headers_case_insensitive (sc1 sc2 : Z) (body1 body2 : list read)
    (raw1 raw2 : list (string * string)) :
  same_up_to_case raw1 raw2 ->
  build_response_headers {| status_code := sc1; resp_headers := raw1; body := body1 |}
  = build_response_headers {| status_code := sc2; resp_headers := raw2; body := body2 |}.
Proof.
  intros H. unfold build_response_headers, httpx_item, httpx_get, httpx_getitem.
  cbn [resp_headers]. rewrite !httpx_contains_values.
  rewrite !(httpx_values_same raw1 raw2 _ H). reflexivity.
Qed.

Lemma response_headers_case_insensitive_witness :
  build_response_headers
    {| status_code := 206; resp_headers := [("CONTENT-RANGE", "bytes 0-1/2")];
       body := [] |} !! "Content-Range" = Some "bytes 0-1/2".
Proof.
  rewrite (response_headers_case_insensitive 206 206 [] []
             [("CONTENT-RANGE", "bytes 0-1/2")] [("Content-Range", "bytes 0-1/2")]).
  - reflexivity.
  - repeat constructor.
Defined.

(** ** Tokens of different identifiers *)

Lemma hex_value_digit (d : N) : (d < 16)%N -> hex_value (hex_digit d) = d.
Proof.
  intros Hd.
  assert (Hcases : In d (map N.of_nat (seq 0 16))).
  { apply in_map_iff. exists (N.to_nat d). split; [lia|]. apply in_seq. lia. }
  simpl in Hcases.
  repeat (destruct Hcases as [<-|Hcases]; [reflexivity|]).
  destruct Hcases.
Qed.

Lemma hex_nibbles (a b : N) (k : nat) :
  hex a = hex b -> (k < 32)%nat ->
  (N.shiftr a (4 * N.of_nat k) mod 16 = N.shiftr b (4 * N.of_nat k) mod 16)%N.
Proof.
  intros Hh Hk.
  assert (Hl : list_ascii_of_string (hex a) = list_ascii_of_string (hex b))
    by (rewrite Hh; reflexivity).
  rewrite !list_ascii_hex in Hl.
  assert (Hi : In (31 - k)%nat (seq 0 32)) by (apply in_seq; lia).
  pose proof (proj1 (@map_ext_in_iff _ _ _ _ _) Hl _ Hi) as E. cbv beta in E.
  replace (31 - (31 - k))%nat with k in E by lia.
  apply (f_equal hex_value) in E.
  rewrite !hex_value_digit in E by (apply N.mod_lt; discriminate). exact E.
Qed.

Lemma hex_inj (a b : N) :
  (a < 2 ^ 128)%N -> (b < 2 ^ 128)%N -> hex a = hex b -> a = b.
Proof.
  intros Ha Hb Hh. apply N.bits_inj. intros n.
  destruct (N.lt_ge_cases n 128) as [Hn|Hn].
  - set (k := N.to_nat (n / 4)).
    assert (Hk : (k < 32)%nat).
    { unfold k. assert ((n / 4 < 32)%N) by (apply N.Div0.div_lt_upper_bound; lia). lia. }
    pose proof (hex_nibbles a b k Hh Hk) as E.
    assert (Hn4 : n = (n mod 4 + 4 * N.of_nat k)%N).
    { unfold k. rewrite N2Nat.id. pose proof (N.div_mod n 4 ltac:(discriminate)). lia. }
    assert (Hj : (n mod 4 < 4)%N) by (apply N.mod_lt; discriminate).
    apply (f_equal (fun x => N.testbit x (n mod 4))) in E.
    change 16%N with (2 ^ 4)%N in E.
    rewrite !N.mod_pow2_bits_low, !N.shiftr_spec', <- Hn4 in E by exact Hj.
    exact E.
  - rewrite (proj1 (below_pow2_testbit a 128) Ha n Hn).
    rewrite (proj1 (below_pow2_testbit b 128) Hb n Hn). reflexivity.
Qed.

Lemma issue_all_frame (reqs : list (N * string)) (m : gmap string string) (t : string) :
  ~ In t (fst (issue_all reqs m)) -> snd (issue_all reqs m) !! t = m !! t.
Proof.
  revert m. induction reqs as [|[urandom d_url] reqs IH]; intros m; simpl.
  - reflexivity.
  - destruct (issue_all reqs (<[hex (uuid4 urandom) := d_url]> m)) as [tokens m2] eqn:E.
    simpl. intros Hn. specialize (IH (<[hex (uuid4 urandom) := d_url]> m)).
    rewrite E in IH. simpl in IH. rewrite IH by tauto.
    apply lookup_insert_ne. tauto.
Qed.

Lemma issue_all_tokens (reqs : list (N * string)) (m : gmap string string) :
  fst (issue_all reqs m) = map (fun r => hex (uuid4 (fst r))) reqs.
Proof.
  revert m. induction reqs as [|[urandom d_url] reqs IH]; intros m; simpl.
  - reflexivity.
  - specialize (IH (<[hex (uuid4 urandom) := d_url]> m)).
    destruct (issue_all reqs (<[hex (uuid4 urandom) := d_url]> m)) as [tokens m2].
    simpl in *. rewrite IH. reflexivity.
Qed.

Lemma NoDup_tokens (reqs : list (N * string)) :
  NoDup (map (fun r => uuid4 (fst r)) reqs) ->
  NoDup (map (fun r => hex (uuid4 (fst r))) reqs).
Proof.
  induction reqs as [|r reqs IH]; simpl; intros Hnd; [constructor|].
  apply NoDup_cons in Hnd. destruct Hnd as [Hnin Hnd]. apply NoDup_cons.
  split; [|exact (IH Hnd)].
  intros Hin. apply Hnin. apply list_elem_of_In in Hin. apply list_elem_of_In.
  apply in_map_iff in Hin. destruct Hin as (r' & E & Hr').
  apply in_map_iff. exists r'. split; [|exact Hr'].
  apply hex_inj; [apply uuid4_128_bits|apply uuid4_128_bits|exact E].
Qed.

Lemma issue_all_resolves_aux (reqs : list (N * string)) (m : gmap string string) :
  NoDup (map (fun r => uuid4 (fst r)) reqs) ->
  let tokens := fst (issue_all reqs m) in
  let m' := snd (issue_all reqs m) in
  NoDup tokens /\
  Forall2 (fun t r => m' !! t = Some (snd r)) tokens reqs /\
  (forall t, ~ In t tokens -> m' !! t = m !! t).
Proof.
  intros Hnd tokens m'.
  pose proof NoDup_tokens as Htok.
  split; [|split].
  - unfold tokens. rewrite issue_all_tokens. apply Htok. exact Hnd.
  - unfold tokens, m'. clear tokens m'. revert m.
    induction reqs as [|[urandom d_url] reqs IH]; intros m; simpl; [constructor|].
    pose proof (issue_all_frame reqs (<[hex (uuid4 urandom) := d_url]> m)) as Hfr.
    pose proof (issue_all_tokens reqs (<[hex (uuid4 urandom) := d_url]> m)) as Hts.
    specialize (IH (NoDup_cons_1_2 _ _ Hnd) (<[hex (uuid4 urandom) := d_url]> m)).
    destruct (issue_all reqs (<[hex (uuid4 urandom) := d_url]> m)) as [ts m2].
    simpl in *. constructor; [|exact IH].
    rewrite Hfr; [apply lookup_insert_eq|].
    rewrite Hts. pose proof (Htok ((urandom, d_url) :: reqs) Hnd) as Hnd'.
    simpl in Hnd'. apply NoDup_cons_1_1 in Hnd'.
    intros Hin. apply Hnd'. apply list_elem_of_In. exact Hin.
  - intros t Ht. apply issue_all_frame. exact Ht.
Qed.

(** X11. Issuing with different identifiers never collides: when the
    identifiers drawn by a run of issuing steps are pairwise different, the
    tokens are pairwise different, every token resolves to its own URL
    after the whole run, and every entry that was in the map under another
    key is still there. *)
Theorem issue_all_resolves (reqs : list (N * string)) (m : gmap string string) :
  NoDup (map (fun r => uuid4 (fst r)) reqs) ->
  let tokens := fst (issue_all reqs m) in
  let m' := snd (issue_all reqs m) in
  NoDup tokens /\
  Forall2 (fun t r => m' !! t = Some (snd r)) tokens reqs /\
  (forall t, ~ In t tokens -> m' !! t = m !! t).
Proof. exact (issue_all_resolves_aux reqs m). Qed.

Lemma issue_all_resolves_witness :
  snd (issue_all [(1%N, "https://cdn.example/a.mp4"); (2%N, "https://cdn.example/b.mp4")] ∅)
    !! "00000000000040008000000000000001" = Some "https://cdn.example/a.mp4".
Proof.
  destruct (issue_all_resolves
              [(1%N, "https://cdn.example/a.mp4"); (2%N, "https://cdn.example/b.mp4")] ∅)
    as (_ & H & _).
  - vm_compute. repeat constructor; rewrite ?list_elem_of_In; simpl; intuition discriminate.
  - inversion H as [|t r ts rs Hhd Htl Et Er]. exact Hhd.
Defined.

(** ** From a secure URL back to its token *)

Lemma url_path_app (p rest : list N) :
  Forall (fun c => c <> 63%N) p -> url_path (p ++ 63%N :: rest) = p.
Proof.
  induction 1 as [|c p Hc _ IH]; simpl; [reflexivity|].
  destruct (N.eqb_spec c 63) as [->|_]; [congruence|]. rewrite IH. reflexivity.
Qed.

Lemma split_slash_no_slash (a : list N) : ~ In 47%N a -> split_slash a = [a].
Proof.
  induction a as [|c a IH]; simpl; intros Hn; [reflexivity|].
  rewrite IH by tauto. destruct (N.eqb_spec c 47) as [->|_]; [tauto|reflexivity].
Qed.

Lemma split_slash_cons (b : list N) : exists seg segs, split_slash b = seg :: segs.
Proof.
  induction b as [|c b (seg & segs & E)]; simpl; [eauto|].
  rewrite E. destruct (c =? 47)%N; eauto.
Qed.

Lemma split_slash_app (a b : list N) :
  ~ In 47%N a -> split_slash (a ++ 47%N :: b) = a :: split_slash b.
Proof.
  induction a as [|c a IH]; simpl; intros Hn.
  - destruct (split_slash_cons b) as (seg & segs & E). rewrite E. reflexivity.
  - rewrite IH by tauto. destruct (N.eqb_spec c 47) as [->|_]; [tauto|reflexivity].
Qed.

Lemma string_of_pystr_of_string (s : string) : string_of_pystr (pystr_of_string s) = s.
Proof.
  unfold string_of_pystr, pystr_of_string. rewrite map_map.
  rewrite (map_ext _ (fun a => a)) by apply ascii_N_embedding.
  rewrite map_id. apply string_of_list_ascii_of_string.
Qed.

Lemma segment_chars_no_slash (s : list N) :
  Forall segment_char s -> ~ In 47%N s.
Proof.
  intros H Hin. rewrite List.Forall_forall in H. destruct (H _ Hin) as (H1 & _).
  congruence.
Qed.

Lemma segment_chars_no_query (s : list N) :
  Forall segment_char s -> Forall (fun c => c <> 63%N) s.
Proof. apply List.Forall_impl. intros c (_ & H & _). exact H. Qed.

Lemma is_hex_segment_char (c : N) : is_hex c = true -> segment_char c.
Proof.
  intros H. repeat split; intros ->; discriminate H.
Qed.

Lemma path_safe_segment_char us ua (c : N) : path_safe us ua c -> segment_char c.
Proof.
  intros [_ H]. repeat split; intros ->; discriminate H.
Qed.

Lemma q_str_segment_chars (quality : list N) :
  Forall segment_char quality -> Forall segment_char (q_str quality).
Proof.
  intros H. destruct (q_str_cases quality) as [[_ ->]|[_ ->]].
  - repeat constructor; discriminate.
  - unfold replace_char. apply List.Forall_forall. intros c Hc.
    apply filter_In in Hc. destruct Hc as [Hc _]. apply filter_In in Hc.
    destruct Hc as [Hc _]. rewrite List.Forall_forall in H. exact (H c Hc).
Qed.

Lemma make_secure_url_path us ua now urandom (token title quality : list N) :
  Forall segment_char token -> Forall segment_char quality ->
  url_path (make_secure_url us ua now urandom token title quality)
  = pystr_of_string "/v/" ++ token ++ 47%N ::
      (safe_title us ua title ++ 46%N :: q_str quality ++ pystr_of_string ".mp4").
Proof.
  intros Ht Hq. unfold make_secure_url.
  set (stem := safe_title us ua title). set (q := q_str quality).
  set (rest := str_of_int _ ++ _).
  replace (pystr_of_string "/v/" ++ token ++ pystr_of_string "/" ++ stem
           ++ pystr_of_string "." ++ q ++ pystr_of_string ".mp4?token=exp=" ++ rest)
    with ((pystr_of_string "/v/" ++ token ++ 47%N ::
             (stem ++ 46%N :: q ++ pystr_of_string ".mp4"))
          ++ 63%N :: (pystr_of_string "token=exp=" ++ rest)).
  - apply url_path_app.
    assert (Hs : Forall segment_char stem).
    { apply (List.Forall_impl _ (path_safe_segment_char us ua)).
      apply safe_title_path_safe. }
    apply segment_chars_no_query in Ht, Hs.
    pose proof (segment_chars_no_query q (q_str_segment_chars quality Hq)) as Hq'.
    change (pystr_of_string "/v/") with [47; 118; 47]%N.
    change (pystr_of_string ".mp4") with [46; 109; 112; 52]%N.
    repeat first [rewrite Forall_app | rewrite Forall_cons].
    repeat split; try discriminate; try assumption; constructor.
  - change (pystr_of_string ".mp4?token=exp=")
      with (pystr_of_string ".mp4" ++ 63%N :: pystr_of_string "token=exp=").
    change (pystr_of_string "/") with [47%N]. change (pystr_of_string ".") with [46%N].
    rewrite <- !app_assoc. simpl. rewrite <- !app_assoc. simpl.
    rewrite <- !app_assoc. reflexivity.
Qed.

Lemma match_route_secure_url us ua now urandom (token title quality : list N) :
  Forall segment_char token -> token <> [] -> Forall segment_char quality ->
  match_route (url_path (make_secure_url us ua now urandom token title quality))
  = Some (v_token_filename (string_of_pystr token)
            (string_of_pystr (safe_title us ua title ++ 46%N :: q_str quality
                              ++ pystr_of_string ".mp4"))).
Proof.
  intros Ht Hne Hq. rewrite make_secure_url_path by assumption.
  set (fname := safe_title us ua title ++ 46%N :: q_str quality ++ pystr_of_string ".mp4").
  assert (Hf : ~ In 47%N fname).
  { apply segment_chars_no_slash. unfold fname.
    change (pystr_of_string ".mp4") with [46; 109; 112; 52]%N.
    repeat first [rewrite Forall_app | rewrite Forall_cons].
    split; [|split; [|split]].
    - apply (List.Forall_impl _ (path_safe_segment_char us ua)).
      apply safe_title_path_safe.
    - repeat split; discriminate.
    - apply q_str_segment_chars. exact Hq.
    - repeat split; try discriminate. constructor. }
  unfold match_route.
  change (pystr_of_string "/v/" ++ token ++ 47%N :: fname)
    with ([] ++ 47%N :: ([118%N] ++ 47%N :: (token ++ 47%N :: fname))).
  rewrite (split_slash_app []) by (simpl; tauto).
  rewrite (split_slash_app [118%N]) by (simpl; intuition discriminate).
  rewrite (split_slash_app token) by (apply segment_chars_no_slash; exact Ht).
  rewrite (split_slash_no_slash fname Hf).
  destruct token as [|c token]; [congruence|].
  unfold fname at 1. destruct (safe_title us ua title); reflexivity.
Qed.

Lemma secure_url_path_no_percent us ua now urandom (token title quality : list N) :
  Forall segment_char token -> Forall segment_char quality ->
  Forall (fun c => c <> 37%N)
         (url_path (make_secure_url us ua now urandom token title quality)).
Proof.
  intros Ht Hq. rewrite make_secure_url_path by assumption.
  assert (Hp : forall s, Forall segment_char s -> Forall (fun c => c <> 37%N) s).
  { intros s. apply List.Forall_impl. intros c (_ & _ & H). exact H. }
  change (pystr_of_string "/v/") with [47; 118; 47]%N.
  change (pystr_of_string ".mp4") with [46; 109; 112; 52]%N.
  repeat first [rewrite Forall_app | rewrite Forall_cons].
  repeat split; try discriminate; try (apply Hp; assumption); try constructor.
  - apply Hp. apply (List.Forall_impl _ (path_safe_segment_char us ua)).
    apply safe_title_path_safe.
  - apply Hp. apply q_str_segment_chars. exact Hq.
Qed.

(** X12. A URL built for an issued token comes back to that token: when
    the quality label has no [/], [?] or [%], the path of the URL built by
    [make_secure_url] for a token just issued for a non-empty URL selects
    the route [/v/{token}/{filename}] with that very token, the path needs
    no percent-decoding, and the handler of the route streams from the URL
    the token was issued for. *)
Theorem secure_url_routes_back (unicode_isspace unicode_isalnum : N -> bool) (now : Q)
    (urandom urandom' : N) (d_url : string) (m : gmap string string)
    (title quality : list N) (c : AsyncClient) (request : Request) :
  truthy_str d_url = true ->
  Forall segment_char quality ->
  let token := fst (issue_token urandom d_url m) in
  let m' := snd (issue_token urandom d_url m) in
  let target := make_secure_url unicode_isspace unicode_isalnum now urandom'
                  (pystr_of_string token) title quality in
  exists filename,
    match_route (url_path target) = Some (v_token_filename token filename) /\
    Forall (fun ch => ch <> 37%N) (url_path target) /\
    dispatch c m' (v_token_filename token filename) request
    = stream_engine c d_url request.
Proof.
  intros Hu Hq token m' target.
  assert (Ht : Forall segment_char (pystr_of_string token)).
  { apply (List.Forall_impl _ is_hex_segment_char). apply hex_digits. }
  assert (Hne : pystr_of_string token <> []).
  { intros E. apply (f_equal (@length N)) in E. unfold pystr_of_string in E.
    rewrite length_map in E. change token with (hex (uuid4 urandom)) in E.
    rewrite list_ascii_hex, length_map, length_seq in E. discriminate. }
  eexists. split; [|split].
  - unfold target. rewrite match_route_secure_url by assumption.
    rewrite string_of_pystr_of_string. reflexivity.
  - apply secure_url_path_no_percent; assumption.
  - refine (proj1 (issued_token_streams c urandom d_url m _ None request Hu)).
Qed.

Lemma secure_url_routes_back_witness :
  match_route
    (url_path
       (make_secure_url ascii_only ascii_only 1700000000 9
          (pystr_of_string (fst (issue_token 7 "https://cdn.example/a.mp4" ∅)))
          (pystr_of_string "The Movie: Part 2!") (pystr_of_string "1080p")))
  = Some (v_token_filename "00000000000040008000000000000007"
                           "The.Movie.Part.2.1080p.mp4").
Proof.
  destruct (secure_url_routes_back ascii_only ascii_only 1700000000 7 9
              "https://cdn.example/a.mp4" ∅ (pystr_of_string "The Movie: Part 2!")
              (pystr_of_string "1080p")
              {| build_request_raises := fun _ _ _ => None; send := fun _ => inl "down" |}
              {| req_headers := []; query_params := []; client_host := "10.0.0.1" |})
    as (filename & H & _).
  - reflexivity.
  - repeat constructor; discriminate.
  - rewrite H. vm_compute in H. injection H as <-. reflexivity.
Defined.

(** ** Sanitized titles *)

Lemma no_space_ends us (s : list N) :
  Forall (fun c => isspace us c = false) s ->
  starts_nonspace us s /\ ends_nonspace us s.
Proof.
  induction 1 as [|c s Hc Hs [_ IH]]; [split; exact I|].
  split; [exact Hc|]. simpl. destruct s; [exact Hc|exact IH].
Qed.

(** X13. Sanitizing is idempotent: a sanitized title has no whitespace and
    no character to strip left, so sanitizing it again returns it as it
    is. *)
Theorem safe_title_idempotent (unicode_isspace unicode_isalnum : N -> bool)
    (title : list N) :
  safe_title unicode_isspace unicode_isalnum
    (safe_title unicode_isspace unicode_isalnum title)
  = safe_title unicode_isspace unicode_isalnum title.
Proof.
  pose proof (safe_title_path_safe unicode_isspace unicode_isalnum title) as Hsafe.
  set (s := safe_title unicode_isspace unicode_isalnum title) in *.
  assert (Hns : Forall (fun c => isspace unicode_isspace c = false) s).
  { revert Hsafe. apply List.Forall_impl. intros c [H _]. exact H. }
  unfold safe_title.
  assert (E1 : strip unicode_isspace s = s).
  { destruct (no_space_ends unicode_isspace s Hns) as [H1 H2].
    rewrite <- (app_nil_r s) at 1.
    exact (strip_core unicode_isspace [] s [] (List.Forall_nil _) (List.Forall_nil _)
             H1 H2). }
  assert (E2 : re_sub_disallowed unicode_isspace unicode_isalnum s = s).
  { unfold re_sub_disallowed. clear E1 Hns.
    induction Hsafe as [|c l [Hs Hc] _ IH]; simpl; [reflexivity|].
    unfold allowed at 1. rewrite Hs, orb_false_r, Hc, IH. reflexivity. }
  rewrite E1, E2. apply re_sub_spaces_no_space. exact Hns.
Qed.

(** ** Picking the movie of a search *)

Lemma find_first {A : Type} (f : A -> bool) (l : list A) (x : A) :
  find f l = Some x ->
  f x = true /\
  exists before after, l = before ++ x :: after /\ Forall (fun y => f y = false) before.
Proof.
  induction l as [|y l IH]; simpl; [discriminate|].
  destruct (f y) eqn:Hy.
  - intros E. injection E as <-. split; [exact Hy|].
    exists [], l. split; [reflexivity|constructor].
  - intros E. destruct (IH E) as (Hx & before & after & -> & Hb). split; [exact Hx|].
    exists (y :: before), after. split; [reflexivity|]. constructor; assumption.
Qed.

Lemma find_none_all {A : Type} (f : A -> bool) (l : list A) :
  find f l = None -> Forall (fun y => f y = false) l.
Proof.
  intros H. apply List.Forall_forall. intros y Hy. exact (find_none f l H y Hy).
Qed.

(** X14. The movie search returns nothing only for an empty result list.
    Otherwise it returns the first result that is a movie, and when no
    result is a movie it falls back to the very first result. *)
Theorem search_movie_first_movie (item : Type) (subjectType : item -> option subject_type)
    (items : list item) :
  (search_movie_by_title item subjectType items = None <-> items = []) /\
  (forall it, search_movie_by_title item subjectType items = Some it ->
     (is_movie item subjectType it = true /\
      exists before after,
        items = before ++ it :: after /\
        Forall (fun x => is_movie item subjectType x = false) before) \/
     (Forall (fun x => is_movie item subjectType x = false) items /\
      head items = Some it)).
Proof.
  unfold search_movie_by_title. split.
  - destruct items as [|first rest]; [tauto|].
    destruct (find _ _); split; discriminate.
  - intros it. destruct items as [|first rest]; [discriminate|].
    destruct (find (is_movie item subjectType) (first :: rest)) as [x|] eqn:Hf.
    + intros E. injection E as <-. left. exact (find_first _ _ _ Hf).
    + intros E. injection E as <-. right. split; [|reflexivity].
      exact (find_none_all _ _ Hf).
Qed.

(** ** Qualities of a stream *)

Lemma uint_segment_chars (u : Decimal.uint) :
  Forall segment_char (pystr_of_string (NilEmpty.string_of_uint u)).
Proof.
  unfold pystr_of_string.
  induction u; simpl; constructor; try assumption; repeat split; discriminate.
Qed.

Lemma decimal_segment_chars (z : Z) : Forall segment_char (pystr_of_string (decimal z)).
Proof.
  unfold decimal, NilZero.string_of_int.
  assert (Hu : forall u, Forall segment_char (pystr_of_string (NilZero.string_of_uint u))).
  { intros u. pose proof (uint_segment_chars u) as H. destruct u; try exact H.
    repeat constructor; discriminate. }
  destruct (Z.to_int z) as [u|u]; [apply Hu|].
  change (pystr_of_string (String "-" (NilZero.string_of_uint u)))
    with (45%N :: pystr_of_string (NilZero.string_of_uint u)).
  constructor; [repeat split; discriminate|apply Hu].
Qed.

Lemma pystr_of_string_app (a b : string) :
  pystr_of_string (a +:+ b) = pystr_of_string a ++ pystr_of_string b.
Proof.
  unfold pystr_of_string. induction a as [|c a IH]; simpl; [reflexivity|].
  f_equal. exact IH.
Qed.

Lemma q_label_segment_chars (res : option Z) :
  Forall segment_char (pystr_of_string (q_label res)).
Proof.
  assert (H720 : Forall segment_char (pystr_of_string "720p"))
    by (repeat constructor; discriminate).
  unfold q_label. destruct res as [r|]; [|exact H720].
  destruct (r =? 0)%Z; [exact H720|].
  rewrite pystr_of_string_app. apply Forall_app. split; [apply decimal_segment_chars|].
  repeat constructor; discriminate.
Qed.

Lemma issue_token_keeps (urandom : N) (u : string) (m : gmap string string) (t : string) :
  is_Some (m !! t) -> is_Some (snd (issue_token urandom u m) !! t).
Proof.
  intros H. unfold issue_token. cbn [snd].
  destruct (decide (hex (uuid4 urandom) = t)) as [<-|Hne].
  - rewrite lookup_insert_eq. eauto.
  - rewrite lookup_insert_ne by exact Hne. exact H.
Qed.

Lemma tokenize_downloads_keeps us ua title downloads (m : gmap string string) (t : string) :
  is_Some (m !! t) -> is_Some (snd (tokenize_downloads us ua title downloads m) !! t).
Proof.
  revert m. induction downloads as [|[d [[urandom now] urandom']] downloads IH];
    intros m H; simpl; [exact H|].
  destruct (truthy (d_url d)); [|apply IH; exact H].
  specialize (IH (<[hex (uuid4 urandom) := default "" (d_url d)]> m)
                 (issue_token_keeps urandom _ m t H)).
  destruct (tokenize_downloads us ua title downloads _) as [qs m2]. exact IH.
Qed.

Lemma issued_url_routes us ua now urandom urandom' title res :
  match_route (url_path (make_secure_url us ua now urandom'
                           (pystr_of_string (hex (uuid4 urandom))) title
                           (pystr_of_string (q_label res))))
  = Some (v_token_filename (hex (uuid4 urandom))
            (string_of_pystr (safe_title us ua title ++ 46%N ::
                              q_str (pystr_of_string (q_label res))
                              ++ pystr_of_string ".mp4"))).
Proof.
  rewrite match_route_secure_url.
  - rewrite string_of_pystr_of_string. reflexivity.
  - apply (List.Forall_impl _ is_hex_segment_char). apply hex_digits.
  - intros E. apply (f_equal (@length N)) in E. unfold pystr_of_string in E.
    rewrite length_map, list_ascii_hex, length_map, length_seq in E. discriminate.
  - apply q_label_segment_chars.
Qed.

Lemma issue_reqs_cons (d : download) (urandom : N) (now : Q) (urandom' : N)
    (downloads : list (download * (N * Q * N))) :
  issue_reqs ((d, (urandom, now, urandom')) :: downloads)
  = if truthy (d_url d) then (urandom, default "" (d_url d)) :: issue_reqs downloads
    else issue_reqs downloads.
Proof.
  unfold issue_reqs. cbn [List.filter]. change (has_url (d, (urandom, now, urandom')))
    with (truthy (d_url d)). destruct (truthy (d_url d)); reflexivity.
Qed.

Lemma filter_has_url_cons (d : download) (urandom : N) (now : Q) (urandom' : N)
    (downloads : list (download * (N * Q * N))) :
  List.filter has_url ((d, (urandom, now, urandom')) :: downloads)
  = if truthy (d_url d) then (d, (urandom, now, urandom')) :: List.filter has_url downloads
    else List.filter has_url downloads.
Proof. reflexivity. Qed.

Lemma tokenized_urls_live_length us ua title downloads (m : gmap string string) :
  length (fst (tokenize_downloads us ua title downloads m))
  = length (List.filter has_url downloads).
Proof.
  revert m. induction downloads as [|[d [[urandom now] urandom']] downloads IH];
    intros m; [reflexivity|].
  rewrite filter_has_url_cons. cbn [tokenize_downloads issue_token].
  destruct (truthy (d_url d)); [|apply IH].
  specialize (IH (<[hex (uuid4 urandom) := default "" (d_url d)]> m)).
  destruct (tokenize_downloads us ua title downloads _) as [qs m2].
  simpl in *. f_equal. exact IH.
Qed.

(** X15. Every quality URL handed out is live: after the loop over the
    downloads, the URL of each entry of [available_qualities] selects the
    route [/v/{token}/{filename}] with a token that is a key of the token
    map. There is one entry for each download that has a URL, none for
    the others, and the loop removes no key from the map. *)
Theorem tokenized_urls_live (unicode_isspace unicode_isalnum : N -> bool)
    (title : list N) (downloads : list (download * (N * Q * N)))
    (m : gmap string string) :
  let qs := fst (tokenize_downloads unicode_isspace unicode_isalnum title downloads m) in
  let m' := snd (tokenize_downloads unicode_isspace unicode_isalnum title downloads m) in
  Forall (fun q => exists token filename,
            match_route (url_path (q_url q)) = Some (v_token_filename token filename) /\
            is_Some (m' !! token)) qs /\
  length qs = length (List.filter has_url downloads) /\
  (forall t, is_Some (m !! t) -> is_Some (m' !! t)).
Proof.
  intros qs m'. split; [|split].
  - unfold qs, m'. clear qs m'. revert m.
    induction downloads as [|[d [[urandom now] urandom']] downloads IH];
      intros m; simpl; [constructor|].
    destruct (truthy (d_url d)); [|apply IH].
    specialize (IH (<[hex (uuid4 urandom) := default "" (d_url d)]> m)).
    pose proof (tokenize_downloads_keeps unicode_isspace unicode_isalnum title downloads
                  (<[hex (uuid4 urandom) := default "" (d_url d)]> m)
                  (hex (uuid4 urandom))) as Hk.
    destruct (tokenize_downloads unicode_isspace unicode_isalnum title downloads _)
      as [qs m2].
    simpl in *. constructor; [|exact IH].
    eexists _, _. split; [apply issued_url_routes|].
    apply Hk. rewrite lookup_insert_eq. eauto.
  - apply tokenized_urls_live_length.
  - intros t. apply tokenize_downloads_keeps.
Qed.

Lemma tokenize_downloads_map us ua title downloads (m : gmap string string) :
  snd (tokenize_downloads us ua title downloads m) = snd (issue_all (issue_reqs downloads) m).
Proof.
  revert m. induction downloads as [|[d [[urandom now] urandom']] downloads IH];
    intros m; [reflexivity|].
  rewrite issue_reqs_cons. cbn [tokenize_downloads].
  destruct (truthy (d_url d)); [|apply IH]. cbn [issue_all issue_token].
  specialize (IH (<[hex (uuid4 urandom) := default "" (d_url d)]> m)).
  destruct (tokenize_downloads us ua title downloads _) as [qs m2].
  destruct (issue_all (issue_reqs downloads) _) as [ts m3]. exact IH.
Qed.

(** X16. When the identifiers drawn for the downloads are pairwise
    different, the entries of [available_qualities] match the downloads
    that have a URL, in order: each entry keeps the resolution and size of
    its download, and the token in its URL resolves, after the whole loop,
    to the URL of that download. *)
Theorem tokenized_qualities_resolve (unicode_isspace unicode_isalnum : N -> bool)
    (title : list N) (downloads : list (download * (N * Q * N)))
    (m : gmap string string) :
  NoDup (map (fun r => uuid4 (fst r)) (issue_reqs downloads)) ->
  let qs := fst (tokenize_downloads unicode_isspace unicode_isalnum title downloads m) in
  let m' := snd (tokenize_downloads unicode_isspace unicode_isalnum title downloads m) in
  Forall2 (fun q x =>
             q_resolution q = resolution (fst x) /\ q_size q = size (fst x) /\
             label q = q_label (resolution (fst x)) /\
             exists token filename,
               match_route (url_path (q_url q))
               = Some (v_token_filename token filename) /\
               m' !! token = d_url (fst x))
          qs (List.filter has_url downloads).
Proof.
  intros Hnd qs m'.
  destruct (issue_all_resolves_aux (issue_reqs downloads) m Hnd) as (_ & Hres & _).
  unfold m'. rewrite tokenize_downloads_map.
  set (mf := snd (issue_all (issue_reqs downloads) m)) in *.
  rewrite issue_all_tokens in Hres. clearbody mf. unfold qs. clear qs m' Hnd.
  revert m Hres. induction downloads as [|[d [[urandom now] urandom']] downloads IH];
    intros m Hres; [constructor|].
  rewrite issue_reqs_cons in Hres. rewrite filter_has_url_cons.
  cbn [tokenize_downloads issue_token].
  destruct (truthy (d_url d)) eqn:Hu; [|apply IH; exact Hres].
  cbn [map fst] in Hres.
  inversion Hres as [|t r ts rs Hhd Htl]; subst.
  specialize (IH (<[hex (uuid4 urandom) := default "" (d_url d)]> m) Htl).
  destruct (tokenize_downloads unicode_isspace unicode_isalnum title downloads _)
    as [qs m2].
  cbn [fst] in *. constructor; [|exact IH]. cbn [q_resolution q_size label q_url fst].
  split; [reflexivity|]. split; [reflexivity|]. split; [reflexivity|].
  eexists _, _. split; [apply issued_url_routes|].
  rewrite Hhd. cbn [snd]. destruct (d_url d); [reflexivity|discriminate].
Qed.

Lemma tokenized_qualities_resolve_witness :
  let downloads :=
    [({| resolution := Some 480%Z; size := None;
         d_url := Some "https://cdn.example/480.mp4" |},
      (1%N, 1700000000%Q, 11%N));
     ({| resolution := Some 720%Z; size := None; d_url := None |},
      (2%N, 1700000001%Q, 12%N));
     ({| resolution := Some 1080%Z; size := None;
         d_url := Some "https://cdn.example/1080.mp4" |},
      (3%N, 1700000002%Q, 13%N))] in
  NoDup (map (fun r => uuid4 (fst r)) (issue_reqs downloads)) /\
  Forall2 (fun q x =>
             q_resolution q = resolution (fst x) /\ q_size q = size (fst x) /\
             label q = q_label (resolution (fst x)) /\
             exists token filename,
               match_route (url_path (q_url q))
               = Some (v_token_filename token filename) /\
               snd (tokenize_downloads ascii_only ascii_only (pystr_of_string "A")
                      downloads ∅) !! token = d_url (fst x))
          (fst (tokenize_downloads ascii_only ascii_only (pystr_of_string "A")
                  downloads ∅))
          (List.filter has_url downloads).
Proof.
  intros downloads.
  assert (Hnd : NoDup (map (fun r => uuid4 (fst r)) (issue_reqs downloads))).
  { vm_compute. repeat constructor; rewrite ?list_elem_of_In; simpl; intuition discriminate. }
  split; [exact Hnd|].
  exact (tokenized_qualities_resolve ascii_only ascii_only (pystr_of_string "A")
           downloads ∅ Hnd).
Defined.

Lemma insert_desc_In (x q : quality_item) (l : list quality_item) :
  In q (insert_desc x l) <-> q = x \/ In q l.
Proof.
  induction l as [|y l IH]; simpl; [intuition|].
  destruct (get_res_val x <? get_res_val y)%Z; simpl; [rewrite IH|]; intuition.
Qed.

Lemma sort_qualities_In (q : quality_item) (l : list quality_item) :
  In q (sort_qualities l) <-> In q l.
Proof.
  induction l as [|x l IH]; simpl; [tauto|].
  rewrite insert_desc_In, IH. intuition.
Qed.

Lemma insert_desc_perm (x : quality_item) (l : list quality_item) :
  Permutation (insert_desc x l) (x :: l).
Proof.
  induction l as [|y l IH]; simpl; [reflexivity|].
  destruct (get_res_val x <? get_res_val y)%Z; [|reflexivity].
  rewrite IH. apply perm_swap.
Qed.

Lemma sort_qualities_perm (l : list quality_item) : Permutation (sort_qualities l) l.
Proof.
  induction l as [|x l IH]; simpl; [reflexivity|].
  rewrite insert_desc_perm, IH. reflexivity.
Qed.

Lemma insert_desc_best_first (x : quality_item) (l : list quality_item) :
  best_first l -> best_first (insert_desc x l).
Proof.
  unfold best_first. induction 1 as [|y l Hl IH Hy]; simpl.
  - constructor; constructor.
  - destruct (Z.ltb_spec (get_res_val x) (get_res_val y)) as [Hlt|Hge].
    + constructor; [exact IH|]. apply List.Forall_forall. intros z Hz.
      apply insert_desc_In in Hz. destruct Hz as [->|Hz]; [lia|].
      rewrite List.Forall_forall in Hy. exact (Hy z Hz).
    + constructor; [constructor; assumption|]. constructor; [exact Hge|].
      revert Hy. apply List.Forall_impl. intros z Hz. lia.
Qed.

Lemma sort_qualities_best_first (l : list quality_item) : best_first (sort_qualities l).
Proof.
  induction l as [|x l IH]; simpl; [constructor|].
  apply insert_desc_best_first. exact IH.
Qed.

Lemma best_first_after (before after : list quality_item) (q : quality_item) :
  best_first (before ++ q :: after) ->
  Forall (fun q' => (get_res_val q' <= get_res_val q)%Z) after.
Proof.
  unfold best_first. induction before as [|y before IH]; simpl; intros H.
  - inversion H; assumption.
  - inversion H; subst. apply IH. assumption.
Qed.

Lemma selected_quality_is_best_aux (quality : string) (l : list quality_item) :
  Permutation (sort_qualities l) l /\
  best_first (sort_qualities l) /\
  (select_quality quality (sort_qualities l) = None <-> l = []) /\
  (forall q, select_quality quality (sort_qualities l) = Some q ->
     In q l /\
     (forall q', In q' l -> quality_matches quality q' = true ->
                 quality_matches quality q = true /\
                 (get_res_val q' <= get_res_val q)%Z) /\
     ((forall q', In q' l -> quality_matches quality q' = false) ->
      forall q', In q' l -> (get_res_val q' <= get_res_val q)%Z)).
Proof.
  pose proof (sort_qualities_best_first l) as Hsorted.
  split; [apply sort_qualities_perm|]. split; [exact Hsorted|]. split.
  - unfold select_quality. split.
    + intros H. destruct (find _ _) eqn:Hf; [discriminate|].
      destruct (sort_qualities l) as [|y s] eqn:Hs; [|discriminate].
      destruct l as [|x l]; [reflexivity|].
      assert (Hin : In x (sort_qualities (x :: l)))
        by (apply sort_qualities_In; left; reflexivity).
      rewrite Hs in Hin. destruct Hin.
    + intros ->. reflexivity.
  - intros q Hsel. unfold select_quality in Hsel.
    destruct (find (quality_matches quality) (sort_qualities l)) as [q0|] eqn:Hf.
    + injection Hsel as ->.
      destruct (find_first _ _ _ Hf) as (Hq & before & after & E & Hbefore).
      rewrite E in Hsorted. pose proof (best_first_after _ _ _ Hsorted) as Hafter.
      assert (Hq_in : In q l).
      { apply sort_qualities_In. rewrite E. apply in_or_app. right. left. reflexivity. }
      split; [exact Hq_in|]. split.
      * intros q' Hq' Hm. split; [exact Hq|].
        apply sort_qualities_In in Hq'. rewrite E in Hq'.
        apply in_app_or in Hq'. destruct Hq' as [Hb|[->|Ha]].
        -- rewrite List.Forall_forall in Hbefore. rewrite (Hbefore q' Hb) in Hm.
           discriminate.
        -- lia.
        -- rewrite List.Forall_forall in Hafter. exact (Hafter q' Ha).
      * intros Hnone. rewrite (Hnone q Hq_in) in Hq. discriminate.
    + destruct (sort_qualities l) as [|y s] eqn:Hs; [discriminate|].
      injection Hsel as ->.
      assert (Hall : forall q', In q' l -> (get_res_val q' <= get_res_val q)%Z).
      { intros q' Hq'. apply sort_qualities_In in Hq'. rewrite Hs in Hq'.
        destruct Hq' as [->|Hq']; [lia|].
        inversion Hsorted as [|? ? _ Hy]; subst.
        rewrite List.Forall_forall in Hy. exact (Hy q' Hq'). }
      assert (Hq_in : In q l) by (apply sort_qualities_In; rewrite Hs; left; reflexivity).
      split; [exact Hq_in|]. split.
      * intros q' Hq' Hm. exfalso.
        apply sort_qualities_In in Hq'. rewrite Hs in Hq'.
        pose proof (find_none _ _ Hf q' Hq') as Hn. congruence.
      * intros _. exact Hall.
Qed.

(** X17. The qualities are listed best first, and the stream of a request
    is the best one that fits it: the sorted list is a rearrangement of
    the tokenized entries in which no entry comes before one of a higher
    resolution (a missing resolution counting as 0); the selected entry
    is, when some entry matches the requested quality, a matching entry
    of the highest resolution among the matching ones, and otherwise an
    entry of the highest resolution of all. Nothing is selected only when
    there is no entry. *)
Theorem selected_quality_is_best (quality : string) (l : list quality_item) :
  Permutation (sort_qualities l) l /\
  best_first (sort_qualities l) /\
  (select_quality quality (sort_qualities l) = None <-> l = []) /\
  (forall q, select_quality quality (sort_qualities l) = Some q ->
     In q l /\
     (forall q', In q' l -> quality_matches quality q' = true ->
                 quality_matches quality q = true /\
                 (get_res_val q' <= get_res_val q)%Z) /\
     ((forall q', In q' l -> quality_matches quality q' = false) ->
      forall q', In q' l -> (get_res_val q' <= get_res_val q)%Z)).
Proof. exact (selected_quality_is_best_aux quality l). Qed.

Lemma tokenize_downloads_none us ua title downloads (m : gmap string string) :
  List.filter has_url downloads = [] ->
  tokenize_downloads us ua title downloads m = ([], m).
Proof.
  revert m. induction downloads as [|[d [[urandom now] urandom']] downloads IH];
    intros m; [reflexivity|].
  rewrite filter_has_url_cons. cbn [tokenize_downloads].
  destruct (truthy (d_url d)); [discriminate|]. apply IH.
Qed.

(** X18. The upstream resolver is a last resort: when some download has a
    URL, the stream URL is the URL of one of the listed qualities and no
    further token is issued; when none has, the list is empty, and either
    the resolver fails and the result is the error ["No stream found: "]
    with its message and an unchanged token map, or the resolved URL is
    stored under one new token and the stream URL selects the route of
    that token. *)
Theorem stream_qualities_fallback (unicode_isspace unicode_isalnum : N -> bool)
    (title : list N) (quality : string) (downloads : list (download * (N * Q * N)))
    (resolve : string + string) (urandom : N) (now : Q) (urandom' : N)
    (m : gmap string string) :
  let result :=
    stream_qualities unicode_isspace unicode_isalnum title quality downloads resolve
      (urandom, now, urandom') m in
  let tokenized := tokenize_downloads unicode_isspace unicode_isalnum title downloads m in
  match List.filter has_url downloads with
  | _ :: _ =>
      exists q, In q (fst tokenized) /\
                result = (inr (q_url q), sort_qualities (fst tokenized), snd tokenized)
  | [] =>
      match resolve with
      | inl e => result = (inl ("No stream found: " +:+ e), [], m)
      | inr real_url =>
          exists target filename,
            result = (inr target, [], <[hex (uuid4 urandom) := real_url]> m) /\
            match_route (url_path target)
            = Some (v_token_filename (hex (uuid4 urandom)) filename)
      end
  end.
Proof.
  intros result tokenized.
  destruct (List.filter has_url downloads) as [|x xs] eqn:Hf.
  - unfold result, stream_qualities.
    rewrite (tokenize_downloads_none _ _ _ _ _ Hf).
    unfold select_quality, sort_qualities. cbn [foldr find head issue_token].
    destruct resolve as [e|real_url]; [reflexivity|].
    eexists _, _. split; [reflexivity|].
    rewrite match_route_secure_url.
    + rewrite string_of_pystr_of_string. reflexivity.
    + apply (List.Forall_impl _ is_hex_segment_char). apply hex_digits.
    + intros E. apply (f_equal (@length N)) in E. unfold pystr_of_string in E.
      rewrite length_map, list_ascii_hex, length_map, length_seq in E. discriminate.
    + repeat constructor; discriminate.
  - pose proof (tokenized_urls_live_length unicode_isspace unicode_isalnum title
                  downloads m) as Hlen.
    fold tokenized in Hlen. rewrite Hf in Hlen.
    destruct (selected_quality_is_best_aux quality (fst tokenized)) as (_ & _ & Hnone & Hsome).
    unfold result, stream_qualities. fold tokenized.
    destruct tokenized as [qs m1]. cbn [fst snd] in *.
    destruct (select_quality quality (sort_qualities qs)) as [q|] eqn:Hsel.
    + exists q. split; [exact (proj1 (Hsome q eq_refl))|reflexivity].
    + rewrite (proj1 Hnone eq_refl) in Hlen. discriminate.
Qed.

(** ** Seasons of a series *)




(** ** Cache keys *)

Lemma string_app_inj_l (p a b : string) : p +:+ a = p +:+ b -> a = b.
Proof.
  induction p as [|c p IH]; [exact id|].
  change (String c p +:+ a) with (String c (p +:+ a)).
  change (String c p +:+ b) with (String c (p +:+ b)).
  intros E. injection E as E. exact (IH E).
Qed.

Lemma list_ascii_app (a b : string) :
  list_ascii_of_string (a +:+ b) = list_ascii_of_string a ++ list_ascii_of_string b.
Proof.
  induction a as [|c a IH]; [reflexivity|].
  change (String c a +:+ b) with (String c (a +:+ b)). simpl. rewrite IH. reflexivity.
Qed.

Lemma bool_suffix_inj (t1 t2 : string) (b1 b2 : bool) :
  t1 +:+ ":" +:+ str_of_bool b1 = t2 +:+ ":" +:+ str_of_bool b2 -> t1 = t2 /\ b1 = b2.
Proof.
  intros E. apply (f_equal list_ascii_of_string) in E. rewrite !list_ascii_app in E.
  destruct b1, b2; simpl in E.
  - change [":"; "T"; "r"; "u"; "e"]%char with ([":"] ++ ["T"; "r"; "u"; "e"])%char in E.
    rewrite !app_assoc in E. apply app_inv_tail in E. apply app_inv_tail in E.
    split; [|reflexivity].
    rewrite <- (string_of_list_ascii_of_string t1), <- (string_of_list_ascii_of_string t2), E.
    reflexivity.
  - exfalso.
    replace (list_ascii_of_string t1 ++ [":"; "T"; "r"; "u"; "e"])%char
      with ((list_ascii_of_string t1 ++ [":"; "T"; "r"])%char ++ ["u"; "e"])%char in E
      by (rewrite <- app_assoc; reflexivity).
    replace (list_ascii_of_string t2 ++ [":"; "F"; "a"; "l"; "s"; "e"])%char
      with ((list_ascii_of_string t2 ++ [":"; "F"; "a"; "l"])%char ++ ["s"; "e"])%char in E
      by (rewrite <- app_assoc; reflexivity).
    apply (f_equal (@rev ascii)) in E. rewrite !rev_app_distr in E. simpl in E.
    discriminate E.
  - exfalso.
    replace (list_ascii_of_string t2 ++ [":"; "T"; "r"; "u"; "e"])%char
      with ((list_ascii_of_string t2 ++ [":"; "T"; "r"])%char ++ ["u"; "e"])%char in E
      by (rewrite <- app_assoc; reflexivity).
    replace (list_ascii_of_string t1 ++ [":"; "F"; "a"; "l"; "s"; "e"])%char
      with ((list_ascii_of_string t1 ++ [":"; "F"; "a"; "l"])%char ++ ["s"; "e"])%char in E
      by (rewrite <- app_assoc; reflexivity).
    apply (f_equal (@rev ascii)) in E. rewrite !rev_app_distr in E. simpl in E.
    discriminate E.
  - change [":"; "F"; "a"; "l"; "s"; "e"]%char
      with ([":"] ++ ["F"; "a"; "l"; "s"; "e"])%char in E.
    rewrite !app_assoc in E. apply app_inv_tail in E. apply app_inv_tail in E.
    split; [|reflexivity].
    rewrite <- (string_of_list_ascii_of_string t1), <- (string_of_list_ascii_of_string t2), E.
    reflexivity.
Qed.

(** X20. The cache keys of the three cached routes never collide: the key
    of the homepage, the keys of movie details and the keys of series
    details are pairwise different for all titles, two detail requests
    share a key only when they have the same title and the same
    [include_stream], and two series requests only when they have the same
    title. *)
Theorem cache_keys_separate (t1 t2 : string) (b1 b2 : bool) :
  (details_cache_key t1 b1 = details_cache_key t2 b2 -> t1 = t2 /\ b1 = b2) /\
  (tv_details_cache_key t1 = tv_details_cache_key t2 -> t1 = t2) /\
  details_cache_key t1 b1 <> tv_details_cache_key t2 /\
  details_cache_key t1 b1 <> home_cache_key /\
  tv_details_cache_key t1 <> home_cache_key.
Proof.
  unfold details_cache_key, tv_details_cache_key, home_cache_key.
  split; [|split; [|split; [|split]]].
  - intros E. apply string_app_inj_l in E. exact (bool_suffix_inj _ _ _ _ E).
  - apply string_app_inj_l.
  - discriminate.
  - discriminate.
  - discriminate.
Qed.
